(** * 1password.js: the vault unlock pipeline and its envelope codec

    A shallow embedding of [src/vault.js]: the [Vault] class (constructor
    and [search]) and the two module-level helpers [decryptKeyData] and
    [createKeyPair].

    - Buffers are lists of bytes; the [Buffer] methods the code uses
      ([slice], [readUInt32LE]) are written out with their clamping and
      their range check.
    - JavaScript numbers that the code computes are integers well inside
      the exact range of a double, so they are modelled in [Z]; the 32-bit
      wrap-around of [<<] is written out.
    - Node's [crypto] module and [JSON.parse] are an interface
      ([Platform]); every statement is proved for all its instances.
    - The error-first callbacks are all invoked synchronously, at most
      once: a call of [decryptKeyData] either throws or hands its callback
      an error or a plaintext.  The model returns the callback's arguments
      and lets each call site continue as its callback does.
    - A promise chain without rejection handlers is a computation that
      stops at the first rejection; throwing inside a [then] handler or a
      promise executor rejects. *)

From Stdlib Require Import ZArith List String Bool Lia.
From Stdlib Require Import Strings.Byte.
Import ListNotations.

Local Open Scope Z_scope.

(** ** JavaScript values the code manipulates *)

Definition Buffer := list byte.

Definition byte_to_Z (b : byte) : Z := Z.of_N (Byte.to_N b).

Definition byte_of_Z (z : Z) : byte :=
  match Byte.of_N (Z.to_N (z mod 256)) with
  | Some b => b
  | None => x00
  end.

Definition Buffer_eqb (a b : Buffer) : bool :=
  if list_eq_dec Byte.byte_eq_dec a b then true else false.

Module JS.

(** ToInt32 of an integer-valued number. *)
Definition toInt32 (z : Z) : Z :=
  let m := z mod 2 ^ 32 in
  if m >=? 2 ^ 31 then m - 2 ^ 32 else m.

(** [a << n]: both operands go through the 32-bit conversions, the
    shift count is taken modulo 32, the result is a signed 32-bit
    integer. *)
Definition shl (a n : Z) : Z :=
  toInt32 (Z.shiftl (toInt32 a) (Z.land n 31)).

Definition length (b : Buffer) : Z := Z.of_nat (List.length b).

(** Index normalisation of [slice]: a negative index counts from the
    end, and both ends are clamped to the buffer. *)
Definition relIndex (len i : Z) : Z :=
  if i <? 0 then Z.max (len + i) 0 else Z.min i len.

(** [buf.slice(start, end)] *)
Definition slice (b : Buffer) (start end_ : Z) : Buffer :=
  let s := relIndex (length b) start in
  let e := relIndex (length b) end_ in
  firstn (Z.to_nat (e - s)) (skipn (Z.to_nat s) b).

(** [buf.slice(start)] *)
Definition sliceFrom (b : Buffer) (start : Z) : Buffer :=
  slice b start (length b).

End JS.

(** Errors that can be thrown or passed to a callback. *)
Inductive JsError : Type :=
| RangeError                      (* Buffer read outside the buffer *)
| TypeError                       (* property read on null or undefined *)
| SyntaxError                     (* JSON.parse *)
| CryptoError                     (* thrown by the crypto module *)
| DbError (message : string)      (* reported by sqlite3 *)
| Error (message : string).       (* new Error(message) *)

Definition ChecksumMismatch : JsError := Error "Invalid OPData1 Checksum".
Definition AuthenticationFailure : JsError := Error "Invalid password".

(** A key pair is the two-element array [[encryptionKey, macKey]]. *)
Definition KeyPair : Type := (Buffer * Buffer)%type.

#[local] Unset Elimination Schemes.
Inductive json : Type :=
| JNull
| JBool (b : bool)
| JNumber (literal : string)
| JString (s : string)
| JArray (elements : list json)
| JObject (fields : list (string * json)).
#[local] Set Elimination Schemes.

(** ** Calls into the platform, recorded in the order they happen *)

Inductive Event : Type :=
| CallDecryptKeyData (keypair : KeyPair) (data : Buffer) (isOpdata01 : bool)
| CallPbkdf2 (password salt : Buffer) (iterations : Z)
| CallCreateHmac (key data : Buffer)
| CallCreateDecipheriv (key iv ciphertext : Buffer)
| CallCreateHash (data : Buffer)
| CallJSONparse (text : Buffer).

Definition isDecryptKeyData (ev : Event) : bool :=
  match ev with
  | CallDecryptKeyData _ _ _ => true
  | _ => false
  end.

Definition isCreateHash (ev : Event) : bool :=
  match ev with
  | CallCreateHash _ => true
  | _ => false
  end.

Definition isPbkdf2 (ev : Event) : bool :=
  match ev with
  | CallPbkdf2 _ _ _ => true
  | _ => false
  end.

(** How many of the calls of a trace pass a test. *)
Definition countCalls (f : Event -> bool) (trace : list Event) : nat :=
  List.length (filter f trace).

Inductive Completion (A : Type) : Type :=
| Normal (a : A)
| Throw (e : JsError).
Arguments Normal {A} a.
Arguments Throw {A} e.

(** A computation yields the calls it made and how it completed. *)
Definition M (A : Type) : Type := (list Event * Completion A)%type.

Definition ret {A} (a : A) : M A := ([], Normal a).
Definition throw {A} (e : JsError) : M A := ([], Throw e).
Definition emit (ev : Event) : M unit := ([ev], Normal tt).

Definition bind {A B} (m : M A) (f : A -> M B) : M B :=
  match snd m with
  | Throw e => (fst m, Throw e)
  | Normal a => (fst m ++ fst (f a), snd (f a))
  end.

(** What a [new Promise(executor)] settles to: a throwing executor
    rejects the promise, and the surrounding code goes on. *)
Definition newPromise {A} (executor : M A) : M (Completion A) :=
  (fst executor, Normal (snd executor)).

Definition lift {A} (e : JsError) (o : option A) : M A :=
  match o with
  | Some a => ret a
  | None => throw e
  end.

Declare Scope js_scope.
Delimit Scope js_scope with js.
Notation "x <- m ;; k" := (bind m (fun x => k))
  (at level 61, m at next level, right associativity) : js_scope.
Notation "m ;;; k" := (bind m (fun _ => k))
  (at level 61, right associativity) : js_scope.
Local Open Scope js_scope.

(** ** The platform: Node's [crypto] module and [JSON.parse] *)

Class Platform : Type := {
  (** [crypto.pbkdf2(password, salt, iterations, keylen, 'sha512', cb)];
      [None] when it reports an error. *)
  pbkdf2_sha512 : Buffer -> Buffer -> Z -> Z -> option Buffer;
  (** [createHmac('sha256', key).update(data).digest()] *)
  hmac_sha256 : Buffer -> Buffer -> Buffer;
  (** [createDecipheriv('aes-256-cbc', key, iv)] with automatic padding
      off, [update(ciphertext)] then [final()]; [None] when one of them
      throws (key or IV of the wrong size, input not block aligned). *)
  aes_256_cbc_decrypt : Buffer -> Buffer -> Buffer -> option Buffer;
  (** The matching [createCipheriv], which only the builders of
      envelopes use. *)
  aes_256_cbc_encrypt : Buffer -> Buffer -> Buffer -> Buffer;
  (** [createHash('sha512').update(data).digest()] *)
  sha512 : Buffer -> Buffer;
  (** [JSON.parse(buf.toString('utf8'))]; [None] when it throws. *)
  JSON_parse : Buffer -> option json
}.

(** ** Module-level helpers of vault.js *)

Definition opdata01 : Buffer := list_byte_of_string "opdata01".

(** [buf.readUInt32LE(offset)]: throws unless the four bytes are inside
    the buffer. *)
Definition uint32LE (b : Buffer) (offset : Z) : Z :=
  let at_ i := byte_to_Z (nth (Z.to_nat (offset + i)) b x00) in
  at_ 0 + at_ 1 * 2 ^ 8 + at_ 2 * 2 ^ 16 + at_ 3 * 2 ^ 24.

Definition readUInt32LE (b : Buffer) (offset : Z) : M Z :=
  if offset + 4 >? JS.length b then throw RangeError
  else ret (uint32LE b offset).

(** The arguments [decryptKeyData] hands to its callback. *)
Inductive CallbackArgs : Type :=
| CbErr (err : JsError)
| CbOk (plaintext : Buffer).

Section Helpers.
Context {P : Platform}.

(** The number computed on line 228. *)
Definition declaredLength (data : Buffer) : M Z :=
  hi <- readUInt32LE data 12 ;;
  lo <- readUInt32LE data 8 ;;
  ret (JS.shl hi 8 + lo).

Definition decryptKeyData (keypair : KeyPair) (data : Buffer)
    (isOpdata01 : bool) : M CallbackArgs :=
  emit (CallDecryptKeyData keypair data isOpdata01) ;;;
  let offset := if isOpdata01 then 16 else 0 in
  let check := JS.slice data 0 8 in
  length <- declaredLength data ;;
  let iv := JS.slice data offset (offset + 16) in
  let ciphertext := JS.slice data (offset + 16) (-32) in
  let hmacData := JS.slice data 0 (-32) in
  let hmacCheck := JS.sliceFrom data (-32) in
  if isOpdata01 && negb (Buffer_eqb check opdata01) then
    ret (CbErr ChecksumMismatch)
  else
    emit (CallCreateHmac (snd keypair) hmacData) ;;;
    let digest := hmac_sha256 (snd keypair) hmacData in
    if negb (Buffer_eqb digest hmacCheck) then
      ret (CbErr AuthenticationFailure)
    else
      emit (CallCreateDecipheriv (fst keypair) iv ciphertext) ;;;
      plaintext <- lift CryptoError
                     (aes_256_cbc_decrypt (fst keypair) iv ciphertext) ;;
      ret (CbOk (JS.sliceFrom plaintext (- Z.abs length))).

Definition createKeyPair (data : Buffer) (digest : bool) : M KeyPair :=
  data' <- (if digest then
              emit (CallCreateHash data) ;;; ret (sha512 data)
            else ret data) ;;
  ret (JS.slice data' 0 32, JS.sliceFrom data' 32).

End Helpers.

(** ** Rows the constructor reads from the sqlite database *)

Record ProfileRow : Type := {
  profile_id : Z;
  iterations : Z;
  master_key_data : Buffer;
  overview_key_data : Buffer;
  salt : Buffer
}.

Record ItemRow : Type := {
  item_id : Z;
  key_data : Buffer;
  overview_data : Buffer
}.

Record DetailRow : Type := {
  detail_item_id : Z;
  detail_data : Buffer
}.

(** What the three queries answer: an error, or their rows ([db.get]
    answers [undefined] when no profile has the name). *)
Record Database : Type := {
  db_get_profile : string -> JsError + option ProfileRow;
  db_all_items : Z -> JsError + list ItemRow;
  db_all_item_details : JsError + list DetailRow
}.

(** The objects pushed on [keys] (lines 130-135). *)
Record Key : Type := {
  overviewDataRaw : Buffer;
  overviewData : json;
  itemDataKeyPair : KeyPair;
  id : Z
}.

(** The objects pushed on [this.details] (lines 177-181); [None] is
    [null]. *)
Record Detail : Type := {
  itemOverview : Key;
  itemDetailRaw : option Buffer;
  itemDetail : option json
}.

(** A settled promise; the reason [None] is [undefined]. *)
Inductive Promise (A : Type) : Type :=
| Fulfilled (a : A)
| Rejected (reason : option JsError).
Arguments Fulfilled {A} a.
Arguments Rejected {A} reason.

Definition settle {A} (c : Completion A) : Promise A :=
  match c with
  | Normal a => Fulfilled a
  | Throw e => Rejected (Some e)
  end.

Record Vault : Type := {
  details : list Detail;
  dbPromise : Promise unit
}.

(** ** The constructor, one definition per run of [then] handlers *)

Section Constructor.
Context {P : Platform}.

(** [new Promise] around a call of [decryptKeyData] whose callback
    rejects on an error and resolves with the plaintext (lines 61-69 and
    77-85). *)
Definition promisified (call : M CallbackArgs) : M Buffer :=
  r <- call ;;
  match r with
  | CbErr err => throw err
  | CbOk plaintext => ret plaintext
  end.

Definition sqlite {A} (answer : JsError + A) : M A :=
  match answer with
  | inl err => throw err
  | inr rows => ret rows
  end.

(** Lines 31-42: the row of the profile. *)
Definition readProfile (db : Database) (profileName : option string)
    : M (option ProfileRow) :=
  let profileName :=
    match profileName with
    | None => "default"%string
    | Some name => name
    end in
  sqlite (db_get_profile db profileName).

(** Lines 42-58: the key pair of the master password.  Reading a field
    of the [undefined] row throws. *)
Definition deriveMasterPasswordKeyPair (masterPassword : Buffer)
    (profileData : option ProfileRow) : M (ProfileRow * KeyPair) :=
  profile <- lift TypeError profileData ;;
  emit (CallPbkdf2 masterPassword (salt profile) (iterations profile)) ;;;
  key <- lift CryptoError
           (pbkdf2_sha512 masterPassword (salt profile)
              (iterations profile) 64) ;;
  ret (profile, (JS.slice key 0 32, JS.sliceFrom key 32)).

(** Lines 58-91: the master and the overview key pair. *)
Definition unlockKeys (masterPasswordKeyPair : KeyPair)
    (profileData : ProfileRow) : M (KeyPair * KeyPair) :=
  masterDataKeyData <-
    promisified (decryptKeyData masterPasswordKeyPair
                   (master_key_data profileData) true) ;;
  masterDataKeyPair <- createKeyPair masterDataKeyData true ;;
  overviewDataKeyData <-
    promisified (decryptKeyData masterPasswordKeyPair
                   (overview_key_data profileData) true) ;;
  overviewDataKeyPair <- createKeyPair overviewDataKeyData true ;;
  ret (masterDataKeyPair, overviewDataKeyPair).

Definition parseJSON (text : Buffer) : M json :=
  emit (CallJSONparse text) ;;;
  lift SyntaxError (JSON_parse text).

(** The body of the loop of lines 106-138 for one item: what it appends
    to [keys].  An error handed to one of the two callbacks ends in
    [return Promise.reject(err)]: the rejected promise is the callback's
    return value, which [decryptKeyData] returns and the loop discards,
    so nothing is pushed and nothing is thrown. *)
Definition itemKeys (masterDataKeyPair overviewDataKeyPair : KeyPair)
    (item : ItemRow) : M (list Key) :=
  r <- decryptKeyData overviewDataKeyPair (overview_data item) false ;;
  match r with
  | CbErr _ => ret []
  | CbOk overviewData =>
      r' <- decryptKeyData masterDataKeyPair (key_data item) false ;;
      match r' with
      | CbErr _ => ret []
      | CbOk keyData =>
          itemDataKeyPair <-
            (if JS.length keyData =? 0 then ret overviewDataKeyPair
             else createKeyPair keyData false) ;;
          parsed <- parseJSON overviewData ;;
          ret [ {| overviewDataRaw := overviewData;
                   overviewData := parsed;
                   itemDataKeyPair := itemDataKeyPair;
                   id := item_id item |} ]
      end
  end.

(** Lines 102-141. *)
Fixpoint buildKeys (masterDataKeyPair overviewDataKeyPair : KeyPair)
    (items : list ItemRow) : M (list Key) :=
  match items with
  | [] => ret []
  | item :: rest =>
      pushed <- itemKeys masterDataKeyPair overviewDataKeyPair item ;;
      later <- buildKeys masterDataKeyPair overviewDataKeyPair rest ;;
      ret (pushed ++ later)
  end.

(** [keys.find(key => key.id === detail.item_id)] *)
Definition findKey (keys : list Key) (itemId : Z) : option Key :=
  find (fun key => id key =? itemId) keys.

(** The executor of lines 168-185: what it pushes on [this.details]. *)
Definition detailExecutor (itemOverview : Key) (detail : DetailRow)
    : M Detail :=
  r <- decryptKeyData (itemDataKeyPair itemOverview) (detail_data detail)
         true ;;
  match r with
  | CbErr _ =>
      ret {| itemOverview := itemOverview;
             itemDetailRaw := None;
             itemDetail := None |}
  | CbOk itemDetail =>
      parsed <- parseJSON itemDetail ;;
      ret {| itemOverview := itemOverview;
             itemDetailRaw := Some itemDetail;
             itemDetail := Some parsed |}
  end.

(** One turn of the [forEach] of lines 161-186: the promise it adds to
    [itemDetailsPromises], if any, settled. *)
Definition resolveDetail (keys : list Key) (detail : DetailRow)
    : M (option (Completion Detail)) :=
  match findKey keys (detail_item_id detail) with
  | None => ret None
  | Some itemOverview =>
      promise <- newPromise (detailExecutor itemOverview detail) ;;
      ret (Some promise)
  end.

(** The promises one turn of the [forEach] leaves in
    [itemDetailsPromises], without the calls it made. *)
Definition settledDetail (keys : list Key) (detail : DetailRow)
    : list (Completion Detail) :=
  match findKey keys (detail_item_id detail) with
  | None => []
  | Some itemOverview => [snd (detailExecutor itemOverview detail)]
  end.

(** The whole [forEach]: every promise it created, in order.  A
    fulfilled one has pushed its value on [this.details]. *)
Fixpoint resolveDetails (keys : list Key) (itemDetails : list DetailRow)
    : M (list (Completion Detail)) :=
  match itemDetails with
  | [] => ret []
  | detail :: rest =>
      promise <- resolveDetail keys detail ;;
      later <- resolveDetails keys rest ;;
      ret (match promise with
           | None => later
           | Some settled => settled :: later
           end)
  end.

Fixpoint pushed (promises : list (Completion Detail)) : list Detail :=
  match promises with
  | [] => []
  | Normal detail :: rest => detail :: pushed rest
  | Throw _ :: rest => pushed rest
  end.

(** [Promise.all]: rejected with the reason of the first rejected
    promise, fulfilled when there is none. *)
Fixpoint Promise_all (promises : list (Completion Detail))
    : Completion unit :=
  match promises with
  | [] => Normal tt
  | Normal _ :: rest => Promise_all rest
  | Throw e :: _ => Throw e
  end.

(** Lines 42-91 together: from the profile row to the two key pairs
    [(masterDataKeyPair, overviewDataKeyPair)]. *)
Definition unlockHierarchy (masterPassword : Buffer)
    (profileData : option ProfileRow)
    : M (ProfileRow * (KeyPair * KeyPair)) :=
  derived <- deriveMasterPasswordKeyPair masterPassword profileData ;;
  pairs <- unlockKeys (snd derived) (fst derived) ;;
  ret (fst derived, pairs).

(** Lines 31-155: everything before the details are decrypted. *)
Definition unlockIndex (db : Database) (masterPassword : Buffer)
    (profileName : option string) : M (list Key * list DetailRow) :=
  profileData <- readProfile db profileName ;;
  unlocked <- unlockHierarchy masterPassword profileData ;;
  items <- sqlite (db_all_items db (profile_id (fst unlocked))) ;;
  keys <- buildKeys (fst (snd unlocked)) (snd (snd unlocked)) items ;;
  itemDetails <- sqlite (db_all_item_details db) ;;
  ret (keys, itemDetails).

(** [new Vault(masterPassword, profileName)], with the calls it made. *)
Definition Vault_new (db : Database) (masterPassword : Buffer)
    (profileName : option string) : list Event * Vault :=
  let before := unlockIndex db masterPassword profileName in
  match snd before with
  | Throw e =>
      (fst before, {| details := []; dbPromise := Rejected (Some e) |})
  | Normal (keys, itemDetails) =>
      let promises := resolveDetails keys itemDetails in
      match snd promises with
      | Throw e =>
          (fst before ++ fst promises,
           {| details := []; dbPromise := Rejected (Some e) |})
      | Normal settled =>
          (fst before ++ fst promises,
           {| details := pushed settled;
              dbPromise := settle (Promise_all settled) |})
      end
  end.

End Constructor.

(** ** [search] *)

(** The value of property [name] of a parsed object: the last field of
    that name wins, as in [JSON.parse]. *)
Fixpoint getField (fields : list (string * json)) (name : string)
    : option json :=
  match fields with
  | [] => None
  | (k, v) :: rest =>
      match getField rest name with
      | Some later => Some later
      | None => if String.eqb k name then Some v else None
      end
  end.

(** [overviewData.title === title]: reading a property of [null]
    throws; other values that are not objects have no such property. *)
Definition titleIs (title : string) (overview : json) : Completion bool :=
  match overview with
  | JNull => Throw TypeError
  | JObject fields =>
      Normal match getField fields "title" with
             | Some (JString s) => String.eqb s title
             | _ => false
             end
  | _ => Normal false
  end.

(** [this.details.filter(detail => ...)] *)
Fixpoint filterTitle (title : string) (ds : list Detail)
    : Completion (list Detail) :=
  match ds with
  | [] => Normal []
  | detail :: rest =>
      match titleIs title (overviewData (itemOverview detail)) with
      | Throw e => Throw e
      | Normal keep =>
          match filterTitle title rest with
          | Throw e => Throw e
          | Normal items => Normal (if keep then detail :: items else items)
          end
      end
  end.

Definition search (vault : Vault) (title : string) : Promise (list Detail) :=
  match dbPromise vault with
  | Rejected reason => Rejected reason
  | Fulfilled _ =>
      match filterTitle title (details vault) with
      | Throw e => Rejected (Some e)
      | Normal [] => Rejected None
      | Normal items => Fulfilled items
      end
  end.

(** ** The envelope layout, as the specification words it *)

(** The value of the length field as the specification reads it: the
    unsigned 64-bit little-endian integer stored in the eight bytes from
    [offset] on.  Line 228 is compared with it. *)
Definition uint64LE (data : Buffer) (offset : nat) : Z :=
  fold_right (fun b acc => byte_to_Z b + 2 ^ 8 * acc) 0
    (firstn 8 (skipn offset data)).

(** "split" as the specification reads it: the first 32 and the last 32
    bytes of key material.  [createKeyPair], which cuts at byte 32, is
    compared with it. *)
Definition splitFirstLast (raw : Buffer) : KeyPair :=
  (firstn 32 raw, skipn (List.length raw - 32) raw).

(** The entries "whose overview's title field equals [title] exactly". *)
Definition titled (title : string) (detail : Detail) : Prop :=
  exists fields,
    overviewData (itemOverview detail) = JObject fields
    /\ getField fields "title" = Some (JString title).

(** The same as a test, which never throws. *)
Definition hasTitle (title : string) (detail : Detail) : bool :=
  match overviewData (itemOverview detail) with
  | JObject fields =>
      match getField fields "title" with
      | Some (JString s) => String.eqb s title
      | _ => false
      end
  | _ => false
  end.

(** The eight bytes of a length, low byte first. *)
Definition le64 (n : Z) : Buffer :=
  map (fun i => byte_of_Z (n / 2 ^ (8 * i))) [0; 1; 2; 3; 4; 5; 6; 7].

Section Envelopes.
Context {P : Platform}.

(** Modelled from the spec: the builder of well-formed header-bearing
    envelopes (the test-harness inverse of the layout of section 4.2),
    which the repository does not contain.  The padding is prepended to
    the plaintext and the declared length is that of the plaintext. *)
Definition sealEnvelope (keypair : KeyPair) (iv padding plaintext : Buffer)
    : Buffer :=
  let signed :=
    opdata01 ++ le64 (JS.length plaintext) ++ iv
      ++ aes_256_cbc_encrypt (fst keypair) iv (padding ++ plaintext) in
  signed ++ hmac_sha256 (snd keypair) signed.

(** Modelled from the spec: the builder of envelopes without header
    (initialization vector, ciphertext, tag), absent from the repository
    as well. *)
Definition sealBare (keypair : KeyPair) (iv padded : Buffer) : Buffer :=
  let signed := iv ++ aes_256_cbc_encrypt (fst keypair) iv padded in
  signed ++ hmac_sha256 (snd keypair) signed.

End Envelopes.

(** What the proofs need to know of the platform. *)
Class PlatformLaws (P : Platform) : Prop := {
  hmac_sha256_length : forall key data,
    List.length (hmac_sha256 key data) = 32%nat;
  sha512_length : forall data, List.length (sha512 data) = 64%nat;
  aes_256_cbc_inverse : forall key iv plaintext,
    List.length key = 32%nat -> List.length iv = 16%nat ->
    JS.length plaintext mod 16 = 0 ->
    aes_256_cbc_decrypt key iv (aes_256_cbc_encrypt key iv plaintext)
    = Some plaintext
}.

(** ** A small platform to run the model on

    Its functions have the shapes of the real ones (digest sizes, key and
    block sizes, decryption inverse to encryption) and none of their
    strength; the theorems below hold for every platform, this one makes
    them run on examples. *)

Module Sample.

Definition sumBytes (b : Buffer) : Z :=
  fold_right (fun x acc => byte_to_Z x + acc) 0 b.

Definition digestOf (size : nat) (seed : Z) : Buffer :=
  map (fun i => byte_of_Z (seed + 7 * Z.of_nat i)) (seq 0 size).

Definition sizesOk (key iv text : Buffer) : bool :=
  (JS.length key =? 32) && (JS.length iv =? 16)
  && (JS.length text mod 16 =? 0).

(** Reads the text [null] as null and any other non-empty text as an
    object whose title is that text. *)
Definition parse (text : Buffer) : option json :=
  if Buffer_eqb text (list_byte_of_string "null") then Some JNull
  else match text with
       | [] => None
       | _ => Some (JObject [("title"%string,
                              JString (string_of_list_byte text))])
       end.

#[export] Instance platform : Platform := {|
  pbkdf2_sha512 password salt iterations keylen :=
    if iterations <? 1 then None
    else Some (digestOf (Z.to_nat keylen)
                 (sumBytes password + sumBytes salt + iterations));
  hmac_sha256 key data :=
    digestOf 32 (3 * sumBytes key + sumBytes data + JS.length data);
  aes_256_cbc_decrypt key iv ciphertext :=
    if sizesOk key iv ciphertext then Some (rev ciphertext) else None;
  aes_256_cbc_encrypt key iv plaintext := rev plaintext;
  sha512 data := digestOf 64 (sumBytes data + 1);
  JSON_parse := parse
|}.

Definition bytes (s : string) : Buffer := list_byte_of_string s.
Definition zeros (n : nat) : Buffer := repeat x00 n.

(** The scenario of the specification's section 8: password "hunter2",
    two iterations, a salt of sixteen zero bytes. *)
Definition password : Buffer := bytes "hunter2".

Definition topKeyPair : KeyPair :=
  let key := digestOf 64 (sumBytes password + 2) in
  (JS.slice key 0 32, JS.sliceFrom key 32).

Definition masterRaw : Buffer := bytes "master key material".
Definition overviewRaw : Buffer := bytes "overview key material".

Definition pairOf (raw : Buffer) : KeyPair :=
  (JS.slice (sha512 raw) 0 32, JS.sliceFrom (sha512 raw) 32).

Definition masterKeyPair : KeyPair := pairOf masterRaw.
Definition overviewKeyPair : KeyPair := pairOf overviewRaw.

Definition iv0 : Buffer := zeros 16.

(** An initialization vector whose bytes 8 to 15 spell the length [n],
    which is where [decryptKeyData] reads the length of an envelope
    without header. *)
Definition ivDeclaring (n : Z) : Buffer := zeros 8 ++ le64 n.

Definition profile : ProfileRow := {|
  profile_id := 1;
  iterations := 2;
  master_key_data :=
    sealEnvelope topKeyPair iv0 (zeros 13) masterRaw;
  overview_key_data :=
    sealEnvelope topKeyPair iv0 (zeros 11) overviewRaw;
  salt := zeros 16
|}.

(** An item titled "Github" with no key of its own, and one titled
    "Gitlab" with 64 bytes of key material. *)
Definition githubItem : ItemRow := {|
  item_id := 10;
  key_data := sealBare masterKeyPair iv0 [];
  overview_data :=
    sealBare overviewKeyPair (ivDeclaring 6) (zeros 10 ++ bytes "Github")
|}.

Definition gitlabKeyRaw : Buffer := digestOf 64 5.

Definition gitlabItem : ItemRow := {|
  item_id := 11;
  key_data := sealBare masterKeyPair (ivDeclaring 64) gitlabKeyRaw;
  overview_data :=
    sealBare overviewKeyPair (ivDeclaring 6) (zeros 10 ++ bytes "Gitlab")
|}.

(** An item whose overview carries a tag that does not verify. *)
Definition overview_data_of_tampered : Buffer :=
  ivDeclaring 6 ++ zeros 16 ++ zeros 32.

Definition tamperedItem : ItemRow := {|
  item_id := 12;
  key_data := sealBare masterKeyPair iv0 [];
  overview_data := overview_data_of_tampered
|}.

(** An item whose overview is the JSON text [null]. *)
Definition nullItem : ItemRow := {|
  item_id := 13;
  key_data := sealBare masterKeyPair iv0 [];
  overview_data :=
    sealBare overviewKeyPair (ivDeclaring 4) (zeros 12 ++ bytes "null")
|}.

Definition gitlabKeyPair : KeyPair :=
  (JS.slice gitlabKeyRaw 0 32, JS.sliceFrom gitlabKeyRaw 32).

(** The entries the two items push on [keys]. *)
Definition githubKey : Key := {|
  overviewDataRaw := bytes "Github";
  overviewData := JObject [("title"%string, JString "Github")];
  itemDataKeyPair := overviewKeyPair;
  id := 10
|}.

Definition gitlabKey : Key := {|
  overviewDataRaw := bytes "Gitlab";
  overviewData := JObject [("title"%string, JString "Gitlab")];
  itemDataKeyPair := gitlabKeyPair;
  id := 11
|}.

Definition githubDetail : DetailRow := {|
  detail_item_id := 10;
  detail_data :=
    sealEnvelope overviewKeyPair iv0 (zeros 8) (bytes "secret 1")
|}.

Definition gitlabDetail : DetailRow := {|
  detail_item_id := 11;
  detail_data :=
    sealEnvelope gitlabKeyPair iv0 (zeros 8) (bytes "secret 2")
|}.

(** A detail of the Gitlab item sealed under another key pair. *)
Definition foreignDetail : DetailRow := {|
  detail_item_id := 11;
  detail_data :=
    sealEnvelope overviewKeyPair iv0 (zeros 8) (bytes "secret 3")
|}.

Definition orphanDetail : DetailRow := {|
  detail_item_id := 99;
  detail_data := sealEnvelope overviewKeyPair iv0 (zeros 8) (bytes "secret 4")
|}.

Definition emptyDetail : DetailRow := {|
  detail_item_id := 10;
  detail_data := []
|}.

Definition nullDetail : DetailRow := {|
  detail_item_id := 13;
  detail_data :=
    sealEnvelope overviewKeyPair iv0 (zeros 8) (bytes "secret 5")
|}.

Definition database (items : list ItemRow) (rows : list DetailRow)
    : Database := {|
  db_get_profile name :=
    inr (if String.eqb name "default" then Some profile else None);
  db_all_items profileId :=
    inr (if profileId =? 1 then items else []);
  db_all_item_details := inr rows
|}.

End Sample.
(** * Properties *)

(** ** Computations *)

Lemma bind_Normal {A B} (m : M A) (f : A -> M B) (a : A) :
  snd m = Normal a -> bind m f = (fst m ++ fst (f a), snd (f a)).
Proof. unfold bind. intros ->. reflexivity. Qed.

Lemma bind_Throw {A B} (m : M A) (f : A -> M B) (e : JsError) :
  snd m = Throw e -> bind m f = (fst m, Throw e).
Proof. unfold bind. intros ->. reflexivity. Qed.

Lemma bind_ret {A B} (a : A) (f : A -> M B) : bind (ret a) f = f a.
Proof. unfold bind, ret. simpl. destruct (f a). reflexivity. Qed.

Lemma bind_emit {B} (ev : Event) (k : M B) :
  bind (emit ev) (fun _ => k) = (ev :: fst k, snd k).
Proof. reflexivity. Qed.

Lemma surjective_M {A} (m : M A) : m = (fst m, snd m).
Proof. destruct m. reflexivity. Qed.

(** ** Buffers *)

Lemma byte_to_Z_range (b : byte) : 0 <= byte_to_Z b < 256.
Proof.
  unfold byte_to_Z. pose proof (Byte.to_N_bounded b). lia.
Qed.

Lemma byte_to_of_Z (z : Z) : byte_to_Z (byte_of_Z z) = z mod 256.
Proof.
  unfold byte_to_Z, byte_of_Z.
  assert (Hr : 0 <= z mod 256 < 256) by (apply Z.mod_pos_bound; lia).
  destruct (Byte.of_N (Z.to_N (z mod 256))) as [b|] eqn:E.
  - apply Byte.to_of_N in E. rewrite E. lia.
  - apply Byte.of_N_None_iff in E. lia.
Qed.

Lemma Buffer_eqb_eq (a b : Buffer) : Buffer_eqb a b = true <-> a = b.
Proof.
  unfold Buffer_eqb. destruct (list_eq_dec Byte.byte_eq_dec a b); split;
    congruence.
Qed.

Lemma Buffer_eqb_neq (a b : Buffer) : Buffer_eqb a b = false <-> a <> b.
Proof.
  unfold Buffer_eqb. destruct (list_eq_dec Byte.byte_eq_dec a b); split;
    congruence.
Qed.

Lemma length_nonneg (b : Buffer) : 0 <= JS.length b.
Proof. unfold JS.length. lia. Qed.

Lemma length_app (a b : Buffer) :
  JS.length (a ++ b) = JS.length a + JS.length b.
Proof. unfold JS.length. rewrite List.length_app. lia. Qed.

(** The middle of three pieces, cut out by any pair of indices that
    normalise to its two ends. *)
Lemma slice_middle (a b c : Buffer) (s e : Z) :
  JS.relIndex (JS.length (a ++ b ++ c)) s = JS.length a ->
  JS.relIndex (JS.length (a ++ b ++ c)) e = JS.length a + JS.length b ->
  JS.slice (a ++ b ++ c) s e = b.
Proof.
  intros Hs He. unfold JS.slice. rewrite Hs, He.
  unfold JS.length.
  replace (Z.to_nat (Z.of_nat (List.length a))) with (List.length a) by lia.
  replace (Z.to_nat (Z.of_nat (List.length a) + Z.of_nat (List.length b)
                     - Z.of_nat (List.length a)))
    with (List.length b) by lia.
  rewrite skipn_app, skipn_all, Nat.sub_diag. simpl.
  rewrite firstn_app, firstn_all, Nat.sub_diag. simpl.
  apply app_nil_r.
Qed.

Lemma slice_prefix (a c : Buffer) (e : Z) :
  JS.relIndex (JS.length (a ++ c)) e = JS.length a ->
  JS.slice (a ++ c) 0 e = a.
Proof.
  intros He. apply (slice_middle [] a c); cbn [app].
  - change (JS.length []) with 0. unfold JS.relIndex.
    change (0 <? 0) with false. cbv iota.
    pose proof (length_nonneg (a ++ c)). lia.
  - rewrite He. change (JS.length []) with 0. lia.
Qed.

Lemma sliceFrom_suffix (a b : Buffer) (s : Z) :
  JS.relIndex (JS.length (a ++ b)) s = JS.length a ->
  JS.sliceFrom (a ++ b) s = b.
Proof.
  intros Hs. unfold JS.sliceFrom.
  rewrite <- (app_nil_r b) at 1. rewrite <- (app_nil_r b) at 2.
  rewrite <- (app_nil_r b) in Hs.
  apply (slice_middle a b []); [exact Hs|].
  unfold JS.relIndex. rewrite !length_app.
  pose proof (length_nonneg a). pose proof (length_nonneg b).
  change (JS.length []) with 0.
  destruct (_ <? 0) eqn:E; lia.
Qed.

(** ** [decryptKeyData], case by case *)

Lemma readUInt32LE_inside (data : Buffer) (offset : Z) :
  offset + 4 <= JS.length data ->
  readUInt32LE data offset = ([], Normal (uint32LE data offset)).
Proof.
  intros H. unfold readUInt32LE.
  destruct (offset + 4 >? JS.length data) eqn:E; [lia | reflexivity].
Qed.

Lemma readUInt32LE_outside (data : Buffer) (offset : Z) :
  JS.length data < offset + 4 ->
  readUInt32LE data offset = ([], Throw RangeError).
Proof.
  intros H. unfold readUInt32LE.
  destruct (offset + 4 >? JS.length data) eqn:E; [reflexivity | lia].
Qed.

Lemma declaredLength_short (data : Buffer) :
  JS.length data < 16 -> declaredLength data = ([], Throw RangeError).
Proof.
  intros H. unfold declaredLength.
  rewrite (readUInt32LE_outside data 12) by lia. reflexivity.
Qed.

Lemma declaredLength_long (data : Buffer) :
  16 <= JS.length data ->
  declaredLength data
  = ret (JS.shl (uint32LE data 12) 8 + uint32LE data 8).
Proof.
  intros H. unfold declaredLength.
  rewrite (readUInt32LE_inside data 12), (readUInt32LE_inside data 8) by lia.
  reflexivity.
Qed.

Section DecryptKeyData.
Context {P : Platform}.
Variables (keypair : KeyPair) (data : Buffer) (isOpdata01 : bool).

Let entered : Event := CallDecryptKeyData keypair data isOpdata01.
Let hmacData : Buffer := JS.slice data 0 (-32).
Let hmacCheck : Buffer := JS.sliceFrom data (-32).
Let offset : Z := if isOpdata01 then 16 else 0.
Let iv : Buffer := JS.slice data offset (offset + 16).
Let ciphertext : Buffer := JS.slice data (offset + 16) (-32).

Lemma decryptKeyData_short :
  JS.length data < 16 ->
  decryptKeyData keypair data isOpdata01 = ([entered], Throw RangeError).
Proof.
  intros H. unfold decryptKeyData. rewrite bind_emit.
  rewrite (bind_Throw _ _ RangeError)
    by (rewrite declaredLength_short by exact H; reflexivity).
  rewrite declaredLength_short by exact H. reflexivity.
Qed.

Lemma decryptKeyData_checksum :
  16 <= JS.length data ->
  isOpdata01 = true ->
  JS.slice data 0 8 <> opdata01 ->
  decryptKeyData keypair data isOpdata01
  = ([entered], Normal (CbErr ChecksumMismatch)).
Proof.
  intros H Hflag Hcheck. unfold decryptKeyData. rewrite bind_emit.
  rewrite declaredLength_long by exact H. rewrite bind_ret.
  apply Buffer_eqb_neq in Hcheck.
  replace (isOpdata01 && negb (Buffer_eqb (JS.slice data 0 8) opdata01))
    with true by (rewrite Hflag, Hcheck; reflexivity).
  reflexivity.
Qed.

Lemma decryptKeyData_mac :
  16 <= JS.length data ->
  isOpdata01 = false \/ JS.slice data 0 8 = opdata01 ->
  hmac_sha256 (snd keypair) hmacData <> hmacCheck ->
  decryptKeyData keypair data isOpdata01
  = ([entered; CallCreateHmac (snd keypair) hmacData],
     Normal (CbErr AuthenticationFailure)).
Proof.
  intros H Hmagic Hmac. unfold decryptKeyData. rewrite bind_emit.
  rewrite declaredLength_long by exact H. rewrite bind_ret.
  replace (isOpdata01 && negb (Buffer_eqb (JS.slice data 0 8) opdata01))
    with false.
  2:{ destruct Hmagic as [-> | Hm]; [reflexivity|].
      apply Buffer_eqb_eq in Hm. rewrite Hm. now destruct isOpdata01. }
  rewrite bind_emit. apply Buffer_eqb_neq in Hmac.
  fold hmacData hmacCheck. rewrite Hmac. reflexivity.
Qed.

Lemma decryptKeyData_cipher (declared : Z) :
  16 <= JS.length data ->
  declared = JS.shl (uint32LE data 12) 8 + uint32LE data 8 ->
  isOpdata01 = false \/ JS.slice data 0 8 = opdata01 ->
  hmac_sha256 (snd keypair) hmacData = hmacCheck ->
  decryptKeyData keypair data isOpdata01
  = ([entered; CallCreateHmac (snd keypair) hmacData;
      CallCreateDecipheriv (fst keypair) iv ciphertext],
     match aes_256_cbc_decrypt (fst keypair) iv ciphertext with
     | None => Throw CryptoError
     | Some plaintext =>
         Normal (CbOk (JS.sliceFrom plaintext (- Z.abs declared)))
     end).
Proof.
  intros H -> Hmagic Hmac. unfold decryptKeyData. rewrite bind_emit.
  rewrite declaredLength_long by exact H. rewrite bind_ret.
  replace (isOpdata01 && negb (Buffer_eqb (JS.slice data 0 8) opdata01))
    with false.
  2:{ destruct Hmagic as [-> | Hm]; [reflexivity|].
      apply Buffer_eqb_eq in Hm. rewrite Hm. now destruct isOpdata01. }
  rewrite bind_emit. apply Buffer_eqb_eq in Hmac.
  fold hmacData hmacCheck. rewrite Hmac. cbn [negb].
  rewrite bind_emit. fold offset. fold iv ciphertext.
  destruct (aes_256_cbc_decrypt (fst keypair) iv ciphertext); reflexivity.
Qed.

(** Whatever happens, the call is recorded first, and the only other
    calls it makes are one to [createHmac] and one to
    [createDecipheriv]. *)
Lemma decryptKeyData_trace :
  exists calls,
    fst (decryptKeyData keypair data isOpdata01) = entered :: calls
    /\ forall ev, In ev calls ->
         ev = CallCreateHmac (snd keypair) hmacData
         \/ ev = CallCreateDecipheriv (fst keypair) iv ciphertext.
Proof.
  destruct (Z_lt_le_dec (JS.length data) 16) as [Hs | Hl].
  { rewrite decryptKeyData_short by exact Hs. exists []. split; [reflexivity|].
    intros ev []. }
  destruct (isOpdata01 && negb (Buffer_eqb (JS.slice data 0 8) opdata01))
    eqn:Hm.
  { apply andb_prop in Hm as [Hf Hc]. apply negb_true_iff in Hc.
    apply Buffer_eqb_neq in Hc.
    rewrite decryptKeyData_checksum by assumption.
    exists []. split; [reflexivity|]. intros ev []. }
  assert (Hmagic : isOpdata01 = false \/ JS.slice data 0 8 = opdata01).
  { apply andb_false_iff in Hm as [Hf | Hc]; [now left | right].
    apply negb_false_iff in Hc. now apply Buffer_eqb_eq. }
  destruct (list_eq_dec Byte.byte_eq_dec
              (hmac_sha256 (snd keypair) hmacData) hmacCheck) as [He | Hn].
  - rewrite (decryptKeyData_cipher _ Hl eq_refl Hmagic He).
    eexists. split; [reflexivity|]. simpl. intuition.
  - rewrite (decryptKeyData_mac Hl Hmagic Hn).
    eexists. split; [reflexivity|]. simpl. intuition.
Qed.

End DecryptKeyData.

(** ** The length field *)

Lemma toInt32_range (z : Z) : - 2 ^ 31 <= JS.toInt32 z < 2 ^ 31.
Proof.
  unfold JS.toInt32.
  assert (0 <= z mod 2 ^ 32 < 2 ^ 32) by (apply Z.mod_pos_bound; lia).
  cbv zeta. destruct (z mod 2 ^ 32 >=? 2 ^ 31) eqn:E; lia.
Qed.

Lemma toInt32_small (z : Z) : 0 <= z < 2 ^ 31 -> JS.toInt32 z = z.
Proof.
  intros H. unfold JS.toInt32. rewrite Z.mod_small by lia.
  cbv zeta. destruct (z >=? 2 ^ 31) eqn:E; lia.
Qed.

Lemma shl_range (a n : Z) : - 2 ^ 31 <= JS.shl a n < 2 ^ 31.
Proof. apply toInt32_range. Qed.

Lemma uint32LE_range (data : Buffer) (offset : Z) :
  0 <= uint32LE data offset < 2 ^ 32.
Proof.
  unfold uint32LE. cbv zeta.
  pose proof (byte_to_Z_range (nth (Z.to_nat (offset + 0)) data x00)).
  pose proof (byte_to_Z_range (nth (Z.to_nat (offset + 1)) data x00)).
  pose proof (byte_to_Z_range (nth (Z.to_nat (offset + 2)) data x00)).
  pose proof (byte_to_Z_range (nth (Z.to_nat (offset + 3)) data x00)).
  lia.
Qed.

Ltac sixteen_bytes data H :=
  do 16 (destruct data as [| ? data];
         [exfalso; unfold JS.length in H; simpl in H; lia |]).

(** The eight bytes of the field are its two 32-bit words. *)
Lemma uint64LE_words (data : Buffer) :
  16 <= JS.length data ->
  uint64LE data 8 = uint32LE data 8 + 2 ^ 32 * uint32LE data 12.
Proof.
  intros H. sixteen_bytes data H.
  unfold uint64LE, uint32LE. cbv zeta.
  repeat match goal with
         | |- context [Z.to_nat ?z] =>
             let n := eval vm_compute in (Z.to_nat z) in
             change (Z.to_nat z) with n
         end.
  cbn [skipn firstn fold_right nth]. lia.
Qed.

(** With nothing in the high word, line 228 reads the field at its
    value. *)
Lemma declaredLength_low (data : Buffer) :
  16 <= JS.length data ->
  uint64LE data 8 < 2 ^ 32 ->
  declaredLength data = ret (uint64LE data 8).
Proof.
  intros H Hlow. rewrite declaredLength_long by exact H.
  rewrite (uint64LE_words data H) in *.
  pose proof (uint32LE_range data 8). pose proof (uint32LE_range data 12).
  assert (E : uint32LE data 12 = 0) by lia.
  rewrite E. change (JS.shl 0 8) with 0. f_equal. lia.
Qed.

(** C1 (the code departs from the claim): whenever the high 32-bit word
    of the length field is not zero, that is for every declared length of
    2^32 or more, the number line 228 computes is not the 64-bit
    little-endian integer stored at bytes 8 to 16: the high word is
    shifted by 8 bits, inside 32 bits, instead of 32. *)
Theorem declaredLength_loses_high_word (data : Buffer) :
  16 <= JS.length data ->
  2 ^ 32 <= uint64LE data 8 ->
  declaredLength data
  = ret (JS.shl (uint32LE data 12) 8 + uint32LE data 8)
  /\ JS.shl (uint32LE data 12) 8 + uint32LE data 8 < uint64LE data 8.
Proof.
  intros H Hhigh. split; [apply declaredLength_long; exact H|].
  rewrite (uint64LE_words data H) in *.
  pose proof (uint32LE_range data 8). pose proof (uint32LE_range data 12).
  pose proof (shl_range (uint32LE data 12) 8). lia.
Qed.

Lemma declaredLength_loses_high_word_witness :
  let data := opdata01 ++ le64 (2 ^ 32) in
  uint64LE data 8 = 2 ^ 32
  /\ declaredLength data = ret 256.
Proof.
  intros data. split; [reflexivity|].
  destruct (declaredLength_loses_high_word data) as [E _].
  - vm_compute. discriminate.
  - vm_compute. discriminate.
  - rewrite E. reflexivity.
Defined.

(** ** The magic header and the tag *)

(** C3 (as amended): for every envelope of at least 16 bytes opened as a
    header-bearing one whose first 8 bytes are not "opdata01",
    [decryptKeyData] hands its callback the checksum error, and the only
    call it has made by then is its own: no HMAC is computed. *)
Theorem checksum_mismatch_before_mac {P : Platform} (keypair : KeyPair)
    (data : Buffer) :
  16 <= JS.length data ->
  JS.slice data 0 8 <> opdata01 ->
  decryptKeyData keypair data true
  = ([CallDecryptKeyData keypair data true], Normal (CbErr ChecksumMismatch))
  /\ forall key signed,
       ~ In (CallCreateHmac key signed)
            (fst (decryptKeyData keypair data true)).
Proof.
  intros H Hcheck.
  rewrite (decryptKeyData_checksum keypair data true H eq_refl Hcheck).
  split; [reflexivity|].
  intros key signed [E | []]. discriminate E.
Qed.

Lemma checksum_mismatch_before_mac_witness :
  let data := Sample.bytes "opdata02" ++ Sample.zeros 56 in
  decryptKeyData (P := Sample.platform) Sample.topKeyPair data true
  = ([CallDecryptKeyData Sample.topKeyPair data true],
     Normal (CbErr (Error "Invalid OPData1 Checksum"))).
Proof.
  intros data.
  apply (checksum_mismatch_before_mac (P := Sample.platform)).
  - vm_compute. discriminate.
  - vm_compute. discriminate.
Defined.

(** C3 as stated fails on an envelope shorter than 16 bytes: the length
    field is read before the magic is compared, and that read throws. *)
Lemma checksum_mismatch_short_envelope :
  let data := Sample.bytes "opdata02" in
  JS.slice data 0 8 <> opdata01
  /\ decryptKeyData (P := Sample.platform) Sample.topKeyPair data true
     = ([CallDecryptKeyData Sample.topKeyPair data true], Throw RangeError)
  /\ snd (decryptKeyData (P := Sample.platform) Sample.topKeyPair data true)
     <> Normal (CbErr ChecksumMismatch).
Proof.
  intros data. split; [|split].
  - vm_compute. discriminate.
  - apply decryptKeyData_short. vm_compute. reflexivity.
  - rewrite decryptKeyData_short by (vm_compute; reflexivity).
    discriminate.
Qed.

(** C4 (as amended): for every envelope of at least 16 bytes whose magic
    check passes, or that is opened without header, if the HMAC-SHA256 of
    all bytes but the last 32 under the MAC key differs from the last 32
    bytes, [decryptKeyData] hands its callback the "Invalid password"
    error, having called [createHmac] and never [createDecipheriv]. *)
Theorem mac_mismatch_before_decipher {P : Platform} (keypair : KeyPair)
    (data : Buffer) (isOpdata01 : bool) :
  16 <= JS.length data ->
  isOpdata01 = false \/ JS.slice data 0 8 = opdata01 ->
  hmac_sha256 (snd keypair) (JS.slice data 0 (-32))
    <> JS.sliceFrom data (-32) ->
  decryptKeyData keypair data isOpdata01
  = ([CallDecryptKeyData keypair data isOpdata01;
      CallCreateHmac (snd keypair) (JS.slice data 0 (-32))],
     Normal (CbErr AuthenticationFailure))
  /\ forall key iv ciphertext,
       ~ In (CallCreateDecipheriv key iv ciphertext)
            (fst (decryptKeyData keypair data isOpdata01)).
Proof.
  intros H Hmagic Hmac.
  rewrite (decryptKeyData_mac keypair data isOpdata01 H Hmagic Hmac).
  split; [reflexivity|].
  intros key iv ciphertext [E | [E | []]]; discriminate E.
Qed.

Lemma mac_mismatch_before_decipher_witness :
  let data := Sample.overview_data_of_tampered in
  decryptKeyData (P := Sample.platform) Sample.overviewKeyPair data false
  = ([CallDecryptKeyData Sample.overviewKeyPair data false;
      CallCreateHmac (snd Sample.overviewKeyPair) (JS.slice data 0 (-32))],
     Normal (CbErr (Error "Invalid password"))).
Proof.
  intros data.
  apply (mac_mismatch_before_decipher (P := Sample.platform)).
  - vm_compute. discriminate.
  - left. reflexivity.
  - vm_compute. discriminate.
Defined.

(** C4 as stated fails on an envelope shorter than 16 bytes: here the
    magic is in place and the tag does not verify, and the call throws
    instead of reporting the failed authentication. *)
Lemma mac_mismatch_short_envelope :
  let data := opdata01 in
  JS.slice data 0 8 = opdata01
  /\ hmac_sha256 (Platform := Sample.platform) (snd Sample.topKeyPair)
       (JS.slice data 0 (-32))
     <> JS.sliceFrom data (-32)
  /\ decryptKeyData (P := Sample.platform) Sample.topKeyPair data true
     = ([CallDecryptKeyData Sample.topKeyPair data true], Throw RangeError)
  /\ snd (decryptKeyData (P := Sample.platform) Sample.topKeyPair data true)
     <> Normal (CbErr AuthenticationFailure).
Proof.
  intros data. split; [|split; [|split]].
  - reflexivity.
  - vm_compute. discriminate.
  - apply decryptKeyData_short. vm_compute. reflexivity.
  - rewrite decryptKeyData_short by (vm_compute; reflexivity).
    discriminate.
Qed.

(** ** Opening a sealed envelope *)

Lemma le64_value (n : Z) :
  0 <= n < 2 ^ 64 ->
  fold_right (fun b acc => byte_to_Z b + 2 ^ 8 * acc) 0 (le64 n) = n.
Proof.
  intros H. unfold le64. cbn [map fold_right]. rewrite !byte_to_of_Z.
  change (8 * 0) with 0. change (8 * 1) with 8. change (8 * 2) with 16.
  change (8 * 3) with 24. change (8 * 4) with 32. change (8 * 5) with 40.
  change (8 * 6) with 48. change (8 * 7) with 56.
  pose proof (Z.div_mod (n / 2 ^ 0) 256 ltac:(lia)) as E0.
  pose proof (Z.div_mod (n / 2 ^ 8) 256 ltac:(lia)) as E1.
  pose proof (Z.div_mod (n / 2 ^ 16) 256 ltac:(lia)) as E2.
  pose proof (Z.div_mod (n / 2 ^ 24) 256 ltac:(lia)) as E3.
  pose proof (Z.div_mod (n / 2 ^ 32) 256 ltac:(lia)) as E4.
  pose proof (Z.div_mod (n / 2 ^ 40) 256 ltac:(lia)) as E5.
  pose proof (Z.div_mod (n / 2 ^ 48) 256 ltac:(lia)) as E6.
  pose proof (Z.div_mod (n / 2 ^ 56) 256 ltac:(lia)) as E7.
  rewrite Z.div_div in E0, E1, E2, E3, E4, E5, E6, E7 by lia.
  change (2 ^ 0 * 256) with (2 ^ 8) in E0.
  change (2 ^ 8 * 256) with (2 ^ 16) in E1.
  change (2 ^ 16 * 256) with (2 ^ 24) in E2.
  change (2 ^ 24 * 256) with (2 ^ 32) in E3.
  change (2 ^ 32 * 256) with (2 ^ 40) in E4.
  change (2 ^ 40 * 256) with (2 ^ 48) in E5.
  change (2 ^ 48 * 256) with (2 ^ 56) in E6.
  change (2 ^ 56 * 256) with (2 ^ 64) in E7.
  rewrite (Z.div_small n (2 ^ 64)) in E7 by lia.
  rewrite Z.div_1_r in E0.
  change (2 ^ 0) with 1. rewrite Z.div_1_r. lia.
Qed.

Lemma length_le64 (n : Z) : JS.length (le64 n) = 8.
Proof. reflexivity. Qed.

Lemma length_opdata01 : JS.length opdata01 = 8.
Proof. reflexivity. Qed.

Lemma uint64LE_header (n : Z) (rest : Buffer) :
  0 <= n < 2 ^ 64 ->
  uint64LE (opdata01 ++ le64 n ++ rest) 8 = n.
Proof.
  intros H. unfold uint64LE.
  change (skipn 8 (opdata01 ++ le64 n ++ rest)) with (le64 n ++ rest).
  change (firstn 8 (le64 n ++ rest)) with (le64 n).
  apply le64_value. exact H.
Qed.

Section Sealed.
Context {P : Platform} {L : PlatformLaws P}.
Variables (keypair : KeyPair) (iv padding plaintext : Buffer).
Hypothesis encryptionKey_size : List.length (fst keypair) = 32%nat.
Hypothesis iv_size : List.length iv = 16%nat.
Hypothesis aligned :
  (JS.length padding + JS.length plaintext) mod 16 = 0.

Let ciphertext : Buffer :=
  aes_256_cbc_encrypt (fst keypair) iv (padding ++ plaintext).
Let signed : Buffer :=
  opdata01 ++ le64 (JS.length plaintext) ++ iv ++ ciphertext.
Let tag : Buffer := hmac_sha256 (snd keypair) signed.
Let envelope : Buffer := sealEnvelope keypair iv padding plaintext.

Lemma sealed_parts : envelope = signed ++ tag.
Proof. reflexivity. Qed.

Lemma length_tag : JS.length tag = 32.
Proof. unfold JS.length, tag. rewrite hmac_sha256_length. reflexivity. Qed.

Lemma length_iv : JS.length iv = 16.
Proof. unfold JS.length. rewrite iv_size. reflexivity. Qed.

Lemma length_signed : JS.length signed = 32 + JS.length ciphertext.
Proof.
  unfold signed. rewrite !length_app, length_opdata01, length_le64, length_iv.
  lia.
Qed.

Lemma sealed_check : JS.slice envelope 0 8 = opdata01.
Proof.
  rewrite sealed_parts. unfold signed. rewrite <- !app_assoc.
  apply slice_prefix. rewrite length_opdata01.
  unfold JS.relIndex. change (8 <? 0) with false. cbv iota.
  rewrite !length_app, length_opdata01, length_le64.
  pose proof (length_nonneg iv). pose proof (length_nonneg ciphertext).
  pose proof (length_nonneg tag). lia.
Qed.

Lemma sealed_hmacData : JS.slice envelope 0 (-32) = signed.
Proof.
  rewrite sealed_parts. apply slice_prefix.
  unfold JS.relIndex. change (-32 <? 0) with true. cbv iota.
  rewrite length_app, length_tag. pose proof (length_nonneg signed). lia.
Qed.

Lemma sealed_hmacCheck : JS.sliceFrom envelope (-32) = tag.
Proof.
  rewrite sealed_parts. apply sliceFrom_suffix.
  unfold JS.relIndex. change (-32 <? 0) with true. cbv iota.
  rewrite length_app, length_tag. pose proof (length_nonneg signed). lia.
Qed.

Lemma sealed_iv : JS.slice envelope 16 (16 + 16) = iv.
Proof.
  rewrite sealed_parts. unfold signed.
  replace ((opdata01 ++ le64 (JS.length plaintext) ++ iv ++ ciphertext)
           ++ tag)
    with ((opdata01 ++ le64 (JS.length plaintext)) ++ iv
          ++ (ciphertext ++ tag))
    by (rewrite <- !app_assoc; reflexivity).
  pose proof (length_nonneg ciphertext). pose proof (length_nonneg tag).
  apply slice_middle;
    rewrite !length_app, length_opdata01, length_le64, length_iv;
    unfold JS.relIndex.
  - change (16 <? 0) with false. cbv iota. lia.
  - change (16 + 16 <? 0) with false. cbv iota. lia.
Qed.

Lemma sealed_ciphertext : JS.slice envelope (16 + 16) (-32) = ciphertext.
Proof.
  rewrite sealed_parts. unfold signed.
  replace ((opdata01 ++ le64 (JS.length plaintext) ++ iv ++ ciphertext)
           ++ tag)
    with ((opdata01 ++ le64 (JS.length plaintext) ++ iv) ++ ciphertext
          ++ tag)
    by (rewrite <- !app_assoc; reflexivity).
  pose proof (length_nonneg ciphertext).
  apply slice_middle;
    rewrite !length_app, length_opdata01, length_le64, length_iv, length_tag;
    unfold JS.relIndex.
  - change (16 + 16 <? 0) with false. cbv iota. lia.
  - change (-32 <? 0) with true. cbv iota. lia.
Qed.

Lemma length_envelope : 16 <= JS.length envelope.
Proof.
  rewrite sealed_parts, length_app, length_signed, length_tag.
  pose proof (length_nonneg ciphertext). lia.
Qed.

(** What opening a sealed envelope gives, for every plaintext whose
    length fits the low word of the length field. *)
Lemma open_sealed :
  JS.length plaintext < 2 ^ 32 ->
  snd (decryptKeyData keypair envelope true)
  = Normal (CbOk (JS.sliceFrom (padding ++ plaintext)
                    (- JS.length plaintext))).
Proof.
  intros Hlen. pose proof (length_nonneg plaintext) as Hnn.
  assert (Hfield : uint64LE envelope 8 = JS.length plaintext).
  { rewrite sealed_parts. unfold signed. rewrite <- !app_assoc.
    apply uint64LE_header. lia. }
  pose proof (declaredLength_low envelope length_envelope
                ltac:(rewrite Hfield; exact Hlen)) as Hdecl.
  rewrite declaredLength_long in Hdecl by exact length_envelope.
  injection Hdecl as Hdecl. rewrite Hfield in Hdecl.
  rewrite (decryptKeyData_cipher keypair envelope true
             (JS.length plaintext) length_envelope (eq_sym Hdecl)
             (or_intror sealed_check)).
  2:{ rewrite sealed_hmacData, sealed_hmacCheck. reflexivity. }
  cbn [snd]. rewrite sealed_iv, sealed_ciphertext. unfold ciphertext.
  rewrite aes_256_cbc_inverse; try assumption.
  - rewrite Z.abs_eq by lia. reflexivity.
  - rewrite length_app. exact aligned.
Qed.

(** The round trip, for a non-empty plaintext shorter than 2^32 bytes. *)
Lemma open_sealed_roundtrip :
  0 < JS.length plaintext < 2 ^ 32 ->
  snd (decryptKeyData keypair envelope true) = Normal (CbOk plaintext).
Proof.
  intros [Hpos Hlen]. rewrite open_sealed by exact Hlen.
  do 2 f_equal. apply sliceFrom_suffix.
  unfold JS.relIndex. rewrite length_app.
  pose proof (length_nonneg padding).
  destruct (- JS.length plaintext <? 0) eqn:E; lia.
Qed.

End Sealed.

Lemma length_digestOf (size : nat) (seed : Z) :
  List.length (Sample.digestOf size seed) = size.
Proof. unfold Sample.digestOf. rewrite length_map, length_seq. reflexivity. Qed.

#[export] Instance sample_laws : PlatformLaws Sample.platform.
Proof.
  split.
  - intros key data. apply length_digestOf.
  - intros data. apply length_digestOf.
  - intros key iv plaintext Hkey Hiv Haligned.
    cbn [aes_256_cbc_decrypt aes_256_cbc_encrypt Sample.platform].
    unfold Sample.sizesOk, JS.length in *.
    rewrite length_rev, Hkey, Hiv, Haligned, rev_involutive. reflexivity.
Qed.

(** C2 (the code departs from the claim): opening the well-formed
    envelope of the empty plaintext returns the padding that was
    prepended, not the empty plaintext: the declared length is 0 and
    [slice(-0)] keeps the whole decrypted buffer. *)
Theorem open_sealed_empty_plaintext {P : Platform} {L : PlatformLaws P}
    (keypair : KeyPair) (iv padding : Buffer) :
  List.length (fst keypair) = 32%nat ->
  List.length iv = 16%nat ->
  JS.length padding mod 16 = 0 ->
  padding <> [] ->
  snd (decryptKeyData keypair (sealEnvelope keypair iv padding []) true)
  = Normal (CbOk padding)
  /\ snd (decryptKeyData keypair (sealEnvelope keypair iv padding []) true)
     <> Normal (CbOk []).
Proof.
  intros Hkey Hiv Haligned Hpad.
  assert (E : snd (decryptKeyData keypair
                     (sealEnvelope keypair iv padding []) true)
              = Normal (CbOk padding)).
  { rewrite open_sealed; try assumption.
    - change (- JS.length []) with 0. do 2 f_equal.
      rewrite app_nil_r. apply (sliceFrom_suffix [] padding 0).
      cbn [app]. change (JS.length []) with 0. unfold JS.relIndex.
      change (0 <? 0) with false. cbv iota.
      pose proof (length_nonneg padding). lia.
    - change (JS.length []) with 0. rewrite Z.add_0_r. exact Haligned.
    - reflexivity. }
  split; [exact E|]. rewrite E. intros Heq. apply Hpad. congruence.
Qed.

Lemma open_sealed_empty_plaintext_witness :
  snd (decryptKeyData (P := Sample.platform) Sample.topKeyPair
         (sealEnvelope (P := Sample.platform) Sample.topKeyPair Sample.iv0
            (Sample.zeros 16) [])
         true)
  = Normal (CbOk (Sample.zeros 16)).
Proof.
  apply (open_sealed_empty_plaintext (P := Sample.platform)
           Sample.topKeyPair Sample.iv0 (Sample.zeros 16)).
  - reflexivity.
  - reflexivity.
  - reflexivity.
  - discriminate.
Defined.

(** ** Key pairs *)

Lemma slice_firstn (b : Buffer) (n : nat) :
  JS.slice b 0 (Z.of_nat n) = firstn n b.
Proof.
  unfold JS.slice, JS.relIndex, JS.length.
  change (0 <? 0) with false. cbv iota.
  replace (Z.of_nat n <? 0) with false by (symmetry; apply Z.ltb_ge; lia).
  rewrite (Z.min_l 0) by lia. rewrite Z.sub_0_r.
  change (Z.to_nat 0) with 0%nat. cbn [skipn].
  destruct (Nat.le_gt_cases n (List.length b)) as [Hle | Hgt].
  - f_equal. lia.
  - rewrite (firstn_all2 (n := n)) by lia. apply firstn_all2. lia.
Qed.

Lemma sliceFrom_skipn (b : Buffer) (n : nat) :
  JS.sliceFrom b (Z.of_nat n) = skipn n b.
Proof.
  unfold JS.sliceFrom, JS.slice, JS.relIndex, JS.length.
  replace (Z.of_nat n <? 0) with false by (symmetry; apply Z.ltb_ge; lia).
  replace (Z.of_nat (List.length b) <? 0) with false
    by (symmetry; apply Z.ltb_ge; lia).
  rewrite (Z.min_l (Z.of_nat (List.length b))) by lia.
  rewrite firstn_all2 by (rewrite length_skipn; lia).
  destruct (Nat.le_gt_cases n (List.length b)) as [Hle | Hgt].
  - f_equal. lia.
  - rewrite (skipn_all2 (n := n)) by lia. apply skipn_all2. lia.
Qed.

Lemma createKeyPair_digest {P : Platform} {L : PlatformLaws P} (data : Buffer) :
  createKeyPair data true
  = ([CallCreateHash data], Normal (splitFirstLast (sha512 data))).
Proof.
  unfold createKeyPair. rewrite bind_emit. cbn [fst snd ret bind app].
  unfold splitFirstLast. rewrite sha512_length.
  change 32 with (Z.of_nat 32). rewrite slice_firstn, sliceFrom_skipn.
  reflexivity.
Qed.

Lemma createKeyPair_plain {P : Platform} (data : Buffer) :
  createKeyPair data false
  = ([], Normal (firstn 32 data, skipn 32 data)).
Proof.
  unfold createKeyPair. rewrite bind_ret. 
  change 32 with (Z.of_nat 32). rewrite slice_firstn, sliceFrom_skipn.
  reflexivity.
Qed.

(** ** The key hierarchy *)

Section Hierarchy.
Context {P : Platform} {L : PlatformLaws P}.
Variables (masterPassword : Buffer) (profile : ProfileRow) (key : Buffer).
Hypothesis derived :
  pbkdf2_sha512 masterPassword (salt profile) (iterations profile) 64
  = Some key.

Let topKeyPair : KeyPair := (JS.slice key 0 32, JS.sliceFrom key 32).
Let openMaster : M CallbackArgs :=
  decryptKeyData topKeyPair (master_key_data profile) true.
Let openOverview : M CallbackArgs :=
  decryptKeyData topKeyPair (overview_key_data profile) true.
Let derive : Event :=
  CallPbkdf2 masterPassword (salt profile) (iterations profile).

Lemma deriveMasterPasswordKeyPair_ok :
  deriveMasterPasswordKeyPair masterPassword (Some profile)
  = ([derive], Normal (profile, topKeyPair)).
Proof.
  unfold deriveMasterPasswordKeyPair. cbn [lift]. rewrite bind_ret, bind_emit.
  rewrite derived. reflexivity.
Qed.

Lemma unlockHierarchy_master_fails (e : JsError) :
  snd openMaster = Normal (CbErr e) \/ snd openMaster = Throw e ->
  unlockHierarchy masterPassword (Some profile)
  = (derive :: fst openMaster, Throw e).
Proof.
  intros H. unfold unlockHierarchy.
  rewrite deriveMasterPasswordKeyPair_ok. unfold bind at 1. cbn [fst snd app].
  unfold unlockKeys.
  fold topKeyPair. fold openMaster.
  assert (E : promisified openMaster = (fst openMaster, Throw e)).
  { unfold promisified. destruct H as [H | H].
    - rewrite (bind_Normal _ _ _ H). cbn. rewrite app_nil_r. reflexivity.
    - rewrite (bind_Throw _ _ _ H). reflexivity. }
  rewrite (bind_Throw _ _ e) by (rewrite E; reflexivity).
  rewrite E. reflexivity.
Qed.

Lemma unlockHierarchy_ok (masterRaw overviewRaw : Buffer) :
  snd openMaster = Normal (CbOk masterRaw) ->
  snd openOverview = Normal (CbOk overviewRaw) ->
  unlockHierarchy masterPassword (Some profile)
  = (derive :: fst openMaster ++ CallCreateHash masterRaw
       :: fst openOverview ++ [CallCreateHash overviewRaw],
     Normal (profile, (splitFirstLast (sha512 masterRaw),
                       splitFirstLast (sha512 overviewRaw)))).
Proof.
  intros Hm Ho. unfold unlockHierarchy.
  rewrite deriveMasterPasswordKeyPair_ok. unfold bind at 1. cbn [fst snd app].
  unfold unlockKeys. fold topKeyPair. fold openMaster openOverview.
  assert (Em : promisified openMaster = (fst openMaster, Normal masterRaw)).
  { unfold promisified. rewrite (bind_Normal _ _ _ Hm). cbn.
    rewrite app_nil_r. reflexivity. }
  assert (Eo : promisified openOverview
               = (fst openOverview, Normal overviewRaw)).
  { unfold promisified. rewrite (bind_Normal _ _ _ Ho). cbn.
    rewrite app_nil_r. reflexivity. }
  unfold bind. rewrite Em. cbn [fst snd]. rewrite createKeyPair_digest.
  cbn [fst snd]. rewrite Eo. cbn [fst snd]. rewrite createKeyPair_digest.
  cbn [fst snd ret app]. rewrite ?app_nil_r. reflexivity.
Qed.

(** Between them the calls of a [decryptKeyData] count one opening. *)
Lemma decryptKeyData_counts_once (keypair : KeyPair) (data : Buffer)
    (isOpdata01 : bool) :
  List.length
    (filter isDecryptKeyData (fst (decryptKeyData keypair data isOpdata01)))
  = 1%nat.
Proof.
  destruct (decryptKeyData_trace keypair data isOpdata01)
    as (calls & -> & Hcalls).
  cbn [filter isDecryptKeyData List.length]. f_equal.
  induction calls as [| ev calls IH]; [reflexivity|].
  cbn [filter].
  destruct (Hcalls ev (or_introl eq_refl)) as [-> | ->];
    cbn [isDecryptKeyData]; apply IH; intros ev' Hin; apply Hcalls;
    right; exact Hin.
Qed.

End Hierarchy.

(** C5: [unlockHierarchy] derives the top key pair with PBKDF2, opens
    the master key data and then the overview key data with it as
    header-bearing envelopes, and makes each key pair of the first 32 and
    last 32 bytes of the SHA-512 hash of what it decrypted; when opening
    the master key data fails, by an error handed to the callback or by
    an exception, the run is rejected with that very error after one
    single call of [decryptKeyData], so the overview key data is never
    opened and no key pair comes out. *)
Theorem unlockHierarchy_fail_fast {P : Platform} {L : PlatformLaws P}
    (masterPassword : Buffer) (profile : ProfileRow) (key : Buffer) :
  pbkdf2_sha512 masterPassword (salt profile) (iterations profile) 64
  = Some key ->
  let topKeyPair := (JS.slice key 0 32, JS.sliceFrom key 32) in
  let openMaster :=
    decryptKeyData topKeyPair (master_key_data profile) true in
  let openOverview :=
    decryptKeyData topKeyPair (overview_key_data profile) true in
  let derive :=
    CallPbkdf2 masterPassword (salt profile) (iterations profile) in
  let run := unlockHierarchy masterPassword (Some profile) in
  (forall masterRaw overviewRaw,
     snd openMaster = Normal (CbOk masterRaw) ->
     snd openOverview = Normal (CbOk overviewRaw) ->
     run = (derive :: fst openMaster ++ CallCreateHash masterRaw
              :: fst openOverview ++ [CallCreateHash overviewRaw],
            Normal (profile, (splitFirstLast (sha512 masterRaw),
                              splitFirstLast (sha512 overviewRaw)))))
  /\ (forall e,
        snd openMaster = Normal (CbErr e) \/ snd openMaster = Throw e ->
        run = (derive :: fst openMaster, Throw e)
        /\ List.length (filter isDecryptKeyData (fst run)) = 1%nat).
Proof.
  intros Hkey topKeyPair openMaster openOverview derive run. split.
  - intros masterRaw overviewRaw Hm Ho.
    apply (unlockHierarchy_ok masterPassword profile key Hkey); assumption.
  - intros e He.
    pose proof (unlockHierarchy_master_fails masterPassword profile key
                  Hkey e He) as E.
    split; [exact E|]. unfold run. rewrite E.
    cbn [fst filter isDecryptKeyData].
    apply decryptKeyData_counts_once.
Qed.

Lemma unlockHierarchy_fail_fast_witness :
  snd (unlockHierarchy (P := Sample.platform) Sample.password
         (Some Sample.profile))
  = Normal (Sample.profile, (Sample.masterKeyPair, Sample.overviewKeyPair))
  /\ snd (unlockHierarchy (P := Sample.platform) (Sample.bytes "hunter3")
            (Some Sample.profile))
     = Throw (Error "Invalid password").
Proof.
  split.
  - destruct (unlockHierarchy_fail_fast (P := Sample.platform)
                Sample.password Sample.profile
                (Sample.digestOf 64 (Sample.sumBytes Sample.password + 2))
                eq_refl) as [Hok _].
    rewrite (Hok Sample.masterRaw Sample.overviewRaw);
      vm_compute; reflexivity.
  - destruct (unlockHierarchy_fail_fast (P := Sample.platform)
                (Sample.bytes "hunter3") Sample.profile
                (Sample.digestOf 64
                   (Sample.sumBytes (Sample.bytes "hunter3") + 2))
                eq_refl) as [_ Hfail].
    destruct (Hfail (Error "Invalid password")) as [E _].
    + left. vm_compute. reflexivity.
    + rewrite E. reflexivity.
Defined.

(** ** Items *)

Lemma filter_none {A} (f : A -> bool) (l : list A) :
  (forall x, In x l -> f x = false) -> filter f l = [].
Proof.
  induction l as [| x l IH]; intros H; [reflexivity|].
  cbn [filter]. rewrite (H x (or_introl eq_refl)).
  apply IH. intros y Hy. apply H. right. exact Hy.
Qed.

Section Items.
Context {P : Platform}.
Variables (masterDataKeyPair overviewDataKeyPair : KeyPair) (item : ItemRow).

Let openOverview : M CallbackArgs :=
  decryptKeyData overviewDataKeyPair (overview_data item) false.
Let openKey : M CallbackArgs :=
  decryptKeyData masterDataKeyPair (key_data item) false.

Lemma itemKeys_overview_rejected (e : JsError) :
  snd openOverview = Normal (CbErr e) ->
  itemKeys masterDataKeyPair overviewDataKeyPair item
  = (fst openOverview, Normal []).
Proof.
  intros H. unfold itemKeys. fold openOverview.
  rewrite (bind_Normal _ _ _ H). cbn [fst snd ret].
  rewrite app_nil_r. reflexivity.
Qed.

Lemma itemKeys_overview_throws (e : JsError) :
  snd openOverview = Throw e ->
  itemKeys masterDataKeyPair overviewDataKeyPair item
  = (fst openOverview, Throw e).
Proof.
  intros H. unfold itemKeys. fold openOverview.
  rewrite (bind_Throw _ _ _ H). reflexivity.
Qed.

Lemma itemKeys_pushes (overviewRaw keyRaw : Buffer) (parsed : json) :
  snd openOverview = Normal (CbOk overviewRaw) ->
  snd openKey = Normal (CbOk keyRaw) ->
  JSON_parse overviewRaw = Some parsed ->
  itemKeys masterDataKeyPair overviewDataKeyPair item
  = (fst openOverview ++ fst openKey ++ [CallJSONparse overviewRaw],
     Normal [ {| overviewDataRaw := overviewRaw;
                 overviewData := parsed;
                 itemDataKeyPair :=
                   match keyRaw with
                   | [] => overviewDataKeyPair
                   | _ => (firstn 32 keyRaw, skipn 32 keyRaw)
                   end;
                 id := item_id item |} ]).
Proof.
  intros Ho Hk Hj. unfold itemKeys. fold openOverview openKey.
  rewrite (bind_Normal _ _ _ Ho). cbv beta iota.
  rewrite (bind_Normal _ _ _ Hk). cbv beta iota.
  unfold parseJSON. rewrite Hj.
  destruct keyRaw as [| b keyRaw'].
  - change (JS.length [] =? 0) with true. cbv iota.
    rewrite bind_ret, bind_emit. cbn [lift fst snd ret bind app].
    reflexivity.
  - replace (JS.length (b :: keyRaw') =? 0) with false
      by (symmetry; apply Z.eqb_neq; unfold JS.length; simpl; lia).
    cbv iota. rewrite createKeyPair_plain.
    unfold bind. cbn [lift fst snd ret emit app]. reflexivity.
Qed.

End Items.

(** C6: for an item whose two envelopes open and whose overview parses,
    the entry pushed on [keys] carries the overview key pair when the
    decrypted key data is empty, and otherwise the key data itself cut at
    byte 32 (its first 32 and last 32 bytes when it has 64), without any
    call of [createHash]. *)
Theorem itemDataKeyPair_selection {P : Platform}
    (masterDataKeyPair overviewDataKeyPair : KeyPair) (item : ItemRow)
    (overviewRaw keyRaw : Buffer) (parsed : json) :
  snd (decryptKeyData overviewDataKeyPair (overview_data item) false)
  = Normal (CbOk overviewRaw) ->
  snd (decryptKeyData masterDataKeyPair (key_data item) false)
  = Normal (CbOk keyRaw) ->
  JSON_parse overviewRaw = Some parsed ->
  exists key,
    snd (itemKeys masterDataKeyPair overviewDataKeyPair item) = Normal [key]
    /\ id key = item_id item
    /\ overviewData key = parsed
    /\ (keyRaw = [] -> itemDataKeyPair key = overviewDataKeyPair)
    /\ (keyRaw <> [] ->
        itemDataKeyPair key = (firstn 32 keyRaw, skipn 32 keyRaw))
    /\ (List.length keyRaw = 64%nat ->
        itemDataKeyPair key = splitFirstLast keyRaw)
    /\ filter isCreateHash
         (fst (itemKeys masterDataKeyPair overviewDataKeyPair item)) = [].
Proof.
  intros Ho Hk Hj.
  rewrite (itemKeys_pushes _ _ _ overviewRaw keyRaw parsed Ho Hk Hj).
  eexists. split; [reflexivity|]. cbn [id overviewData itemDataKeyPair fst].
  repeat split.
  - intros ->. reflexivity.
  - intros Hne. destruct keyRaw; [contradiction | reflexivity].
  - intros Hlen. destruct keyRaw; [discriminate Hlen|].
    unfold splitFirstLast. rewrite Hlen. reflexivity.
  - destruct (decryptKeyData_trace overviewDataKeyPair (overview_data item)
                false) as (c1 & -> & H1).
    destruct (decryptKeyData_trace masterDataKeyPair (key_data item)
                false) as (c2 & -> & H2).
    rewrite !filter_app. cbn [filter isCreateHash app].
    rewrite (filter_none isCreateHash c1), (filter_none isCreateHash c2).
    + reflexivity.
    + intros ev Hin. destruct (H2 ev Hin) as [-> | ->]; reflexivity.
    + intros ev Hin. destruct (H1 ev Hin) as [-> | ->]; reflexivity.
Qed.

Lemma itemDataKeyPair_selection_witness :
  (exists key,
     snd (itemKeys (P := Sample.platform) Sample.masterKeyPair
            Sample.overviewKeyPair Sample.githubItem) = Normal [key]
     /\ itemDataKeyPair key = Sample.overviewKeyPair)
  /\ (exists key,
        snd (itemKeys (P := Sample.platform) Sample.masterKeyPair
               Sample.overviewKeyPair Sample.gitlabItem) = Normal [key]
        /\ itemDataKeyPair key = splitFirstLast Sample.gitlabKeyRaw).
Proof.
  split.
  - destruct (itemDataKeyPair_selection (P := Sample.platform)
                Sample.masterKeyPair Sample.overviewKeyPair Sample.githubItem
                (Sample.bytes "Github") []
                (JObject [("title"%string, JString "Github")]))
      as (key & Hrun & _ & _ & Hempty & _).
    + vm_compute. reflexivity.
    + vm_compute. reflexivity.
    + vm_compute. reflexivity.
    + exists key. split; [exact Hrun | apply Hempty; reflexivity].
  - destruct (itemDataKeyPair_selection (P := Sample.platform)
                Sample.masterKeyPair Sample.overviewKeyPair Sample.gitlabItem
                (Sample.bytes "Gitlab") Sample.gitlabKeyRaw
                (JObject [("title"%string, JString "Gitlab")]))
      as (key & Hrun & _ & _ & _ & _ & Hfull & _).
    + vm_compute. reflexivity.
    + vm_compute. reflexivity.
    + vm_compute. reflexivity.
    + exists key. split; [exact Hrun | apply Hfull; reflexivity].
Defined.

Lemma buildKeys_cons {P : Platform}
    (masterDataKeyPair overviewDataKeyPair : KeyPair) (item : ItemRow)
    (rest : list ItemRow) (calls : list Event) :
  itemKeys masterDataKeyPair overviewDataKeyPair item
  = (calls, Normal []) ->
  buildKeys masterDataKeyPair overviewDataKeyPair (item :: rest)
  = (calls ++ fst (buildKeys masterDataKeyPair overviewDataKeyPair rest),
     snd (buildKeys masterDataKeyPair overviewDataKeyPair rest)).
Proof.
  intros E. cbn [buildKeys]. rewrite E. unfold bind at 1. cbn [fst snd].
  f_equal.
  - unfold bind.
    destruct (snd (buildKeys masterDataKeyPair overviewDataKeyPair rest));
      cbn [fst ret]; rewrite ?app_nil_r; reflexivity.
  - unfold bind.
    destruct (snd (buildKeys masterDataKeyPair overviewDataKeyPair rest));
      reflexivity.
Qed.

(** C7 (the code departs from the claim): when opening the overview of
    an item hands the callback an error (the tag does not verify), the
    item pushes nothing and throws nothing, and the loop over the items
    completes as it does without that item: the failure is not fatal to
    the unlock. *)
Theorem overview_failure_not_fatal {P : Platform}
    (masterDataKeyPair overviewDataKeyPair : KeyPair) (item : ItemRow)
    (rest : list ItemRow) (e : JsError) :
  snd (decryptKeyData overviewDataKeyPair (overview_data item) false)
  = Normal (CbErr e) ->
  snd (itemKeys masterDataKeyPair overviewDataKeyPair item) = Normal []
  /\ snd (buildKeys masterDataKeyPair overviewDataKeyPair (item :: rest))
     = snd (buildKeys masterDataKeyPair overviewDataKeyPair rest).
Proof.
  intros H.
  pose proof (itemKeys_overview_rejected masterDataKeyPair
                overviewDataKeyPair item e H) as E.
  split; [rewrite E; reflexivity|].
  rewrite (buildKeys_cons _ _ _ _ _ E). reflexivity.
Qed.

Lemma overview_failure_not_fatal_witness :
  snd (buildKeys (P := Sample.platform) Sample.masterKeyPair
         Sample.overviewKeyPair [Sample.tamperedItem; Sample.githubItem])
  = snd (buildKeys (P := Sample.platform) Sample.masterKeyPair
           Sample.overviewKeyPair [Sample.githubItem])
  /\ dbPromise
       (snd (Vault_new (P := Sample.platform)
               (Sample.database [Sample.tamperedItem; Sample.githubItem]
                  [Sample.githubDetail])
               Sample.password None))
     = Fulfilled tt.
Proof.
  split.
  - apply (overview_failure_not_fatal (P := Sample.platform)
             Sample.masterKeyPair Sample.overviewKeyPair Sample.tamperedItem
             [Sample.githubItem] (Error "Invalid password")).
    vm_compute. reflexivity.
  - vm_compute. reflexivity.
Defined.

(** ** Details *)

Section Details.
Context {P : Platform}.
Variable keys : list Key.

Lemma resolveDetail_settled (detail : DetailRow) :
  snd (resolveDetail keys detail)
  = Normal match findKey keys (detail_item_id detail) with
           | None => None
           | Some itemOverview =>
               Some (snd (detailExecutor itemOverview detail))
           end.
Proof.
  unfold resolveDetail.
  destruct (findKey keys (detail_item_id detail)); reflexivity.
Qed.

Lemma resolveDetails_cons (detail : DetailRow) (rest : list DetailRow)
    (later : list (Completion Detail)) :
  snd (resolveDetails keys rest) = Normal later ->
  snd (resolveDetails keys (detail :: rest))
  = Normal (settledDetail keys detail ++ later).
Proof.
  intros H. cbn [resolveDetails].
  rewrite (bind_Normal _ _ _ (resolveDetail_settled detail)). cbn [snd].
  rewrite (bind_Normal _ _ _ H). cbn [snd ret]. unfold settledDetail.
  destruct (findKey keys (detail_item_id detail)); reflexivity.
Qed.

(** The [forEach] itself never throws. *)
Lemma resolveDetails_settled (itemDetails : list DetailRow) :
  snd (resolveDetails keys itemDetails)
  = Normal (flat_map (settledDetail keys) itemDetails).
Proof.
  induction itemDetails as [| detail rest IH]; [reflexivity|].
  rewrite (resolveDetails_cons detail rest _ IH). reflexivity.
Qed.

Lemma detailExecutor_absent (itemOverview : Key) (detail : DetailRow)
    (e : JsError) :
  snd (decryptKeyData (itemDataKeyPair itemOverview) (detail_data detail)
         true) = Normal (CbErr e) ->
  snd (detailExecutor itemOverview detail)
  = Normal {| itemOverview := itemOverview;
              itemDetailRaw := None;
              itemDetail := None |}.
Proof.
  intros H. unfold detailExecutor. rewrite (bind_Normal _ _ _ H).
  reflexivity.
Qed.

Lemma detailExecutor_throws (itemOverview : Key) (detail : DetailRow)
    (e : JsError) :
  snd (decryptKeyData (itemDataKeyPair itemOverview) (detail_data detail)
         true) = Throw e ->
  snd (detailExecutor itemOverview detail) = Throw e.
Proof.
  intros H. unfold detailExecutor. rewrite (bind_Throw _ _ _ H).
  reflexivity.
Qed.

End Details.

Lemma pushed_app (a b : list (Completion Detail)) :
  pushed (a ++ b) = pushed a ++ pushed b.
Proof.
  induction a as [| [d | e] a IH]; cbn [app pushed]; [reflexivity | |];
    rewrite IH; reflexivity.
Qed.

Lemma Promise_all_fulfilled (a b : list (Completion Detail)) (d : Detail) :
  Promise_all (a ++ Normal d :: b) = Promise_all (a ++ b).
Proof.
  induction a as [| [d' | e] a IH]; cbn [app Promise_all];
    [reflexivity | exact IH | reflexivity].
Qed.

(** C8 (as amended): a detail record whose item id matches no entry
    creates no promise and pushes nothing.  A matched record whose
    envelope fails to open with an error handed to the callback (wrong
    magic, or a tag that does not verify) creates a promise that is
    fulfilled and pushes an element whose detail is null; the other
    records settle as they do without it, and so does [Promise.all]. *)
Theorem detail_failure_tolerated {P : Platform} (keys : list Key)
    (before after : list DetailRow) (detail : DetailRow) :
  let settledBefore := flat_map (settledDetail keys) before in
  let settledAfter := flat_map (settledDetail keys) after in
  (findKey keys (detail_item_id detail) = None ->
   snd (resolveDetails keys (before ++ detail :: after))
   = Normal (settledBefore ++ settledAfter))
  /\ (forall itemOverview e,
        findKey keys (detail_item_id detail) = Some itemOverview ->
        snd (decryptKeyData (itemDataKeyPair itemOverview)
               (detail_data detail) true) = Normal (CbErr e) ->
        let absent := {| itemOverview := itemOverview;
                         itemDetailRaw := None;
                         itemDetail := None |} in
        snd (resolveDetails keys (before ++ detail :: after))
        = Normal (settledBefore ++ Normal absent :: settledAfter)
        /\ pushed (settledBefore ++ Normal absent :: settledAfter)
           = pushed settledBefore ++ absent :: pushed settledAfter
        /\ Promise_all (settledBefore ++ Normal absent :: settledAfter)
           = Promise_all (settledBefore ++ settledAfter)).
Proof.
  intros settledBefore settledAfter. split.
  - intros Hnone. rewrite resolveDetails_settled, flat_map_app.
    cbn [flat_map]. unfold settledDetail at 2. rewrite Hnone. reflexivity.
  - intros itemOverview e Hfound Herr absent. split; [|split].
    + rewrite resolveDetails_settled, flat_map_app. cbn [flat_map].
      unfold settledDetail at 2. rewrite Hfound.
      rewrite (detailExecutor_absent itemOverview detail e Herr).
      reflexivity.
    + rewrite pushed_app. reflexivity.
    + apply Promise_all_fulfilled.
Qed.

Lemma detail_failure_tolerated_witness :
  let keys := [Sample.gitlabKey] in
  exists first absent,
    snd (resolveDetails (P := Sample.platform) keys
           [Sample.gitlabDetail; Sample.orphanDetail; Sample.foreignDetail])
    = Normal [Normal first; Normal absent]
    /\ itemDetail first
       = Some (JObject [("title"%string, JString "secret 2")])
    /\ itemDetail absent = None.
Proof.
  intros keys.
  destruct (detail_failure_tolerated (P := Sample.platform) keys
              [Sample.gitlabDetail; Sample.orphanDetail] []
              Sample.foreignDetail) as [_ Hfail].
  destruct (Hfail Sample.gitlabKey (Error "Invalid password"))
    as [Hrun _].
  - reflexivity.
  - vm_compute. reflexivity.
  - eexists. eexists. split; [exact Hrun|]. split; reflexivity.
Defined.

(** C8 as stated fails when opening the detail throws, here because the
    detail data is shorter than 16 bytes: the promise of that record is
    rejected, [Promise.all] with it, and the vault never becomes
    searchable. *)
Lemma detail_failure_fatal_when_thrown :
  let vault :=
    snd (Vault_new (P := Sample.platform)
           (Sample.database [Sample.githubItem]
              [Sample.githubDetail; Sample.emptyDetail])
           Sample.password None) in
  snd (buildKeys (P := Sample.platform) Sample.masterKeyPair
         Sample.overviewKeyPair [Sample.githubItem])
  = Normal [Sample.githubKey]
  /\ findKey [Sample.githubKey] (detail_item_id Sample.emptyDetail)
     = Some Sample.githubKey
  /\ snd (decryptKeyData (P := Sample.platform) Sample.overviewKeyPair
            (detail_data Sample.emptyDetail) true) = Throw RangeError
  /\ dbPromise vault = Rejected (Some RangeError)
  /\ search vault "Github" = Rejected (Some RangeError).
Proof.
  vm_compute. repeat split; reflexivity.
Qed.

(** ** [search] *)

Lemma hasTitle_titled (title : string) (detail : Detail) :
  hasTitle title detail = true <-> titled title detail.
Proof.
  unfold hasTitle, titled. split.
  - destruct (overviewData (itemOverview detail)) as [| | | | | fields];
      try discriminate.
    destruct (getField fields "title") as [[| | | s | |] |] eqn:E;
      try discriminate.
    intros H. apply String.eqb_eq in H. subst s.
    exists fields. split; [reflexivity | exact E].
  - intros (fields & -> & ->). apply String.eqb_refl.
Qed.

Lemma titleIs_hasTitle (title : string) (detail : Detail) :
  overviewData (itemOverview detail) <> JNull ->
  titleIs title (overviewData (itemOverview detail))
  = Normal (hasTitle title detail).
Proof.
  unfold titleIs, hasTitle. intros H.
  destruct (overviewData (itemOverview detail)); try reflexivity.
  contradiction.
Qed.

Lemma filterTitle_filter (title : string) (ds : list Detail) :
  Forall (fun d => overviewData (itemOverview d) <> JNull) ds ->
  filterTitle title ds = Normal (filter (hasTitle title) ds).
Proof.
  induction 1 as [| d ds Hd _ IH]; [reflexivity|].
  cbn [filterTitle filter]. rewrite (titleIs_hasTitle title d Hd), IH.
  reflexivity.
Qed.

Lemma filterTitle_null (title : string) (ds : list Detail) :
  Exists (fun d => overviewData (itemOverview d) = JNull) ds ->
  filterTitle title ds = Throw TypeError.
Proof.
  induction 1 as [d ds Hd | d ds _ IH]; cbn [filterTitle].
  - rewrite Hd. reflexivity.
  - rewrite IH.
    destruct (titleIs title (overviewData (itemOverview d))) as [keep | e]
      eqn:E; [reflexivity|].
    unfold titleIs in E.
    destruct (overviewData (itemOverview d)); congruence.
Qed.

(** C9 (as amended): once the constructor's promise is fulfilled, and
    provided no indexed overview is the JSON value null, [search] is
    fulfilled with exactly the elements of the index whose overview is an
    object with a string [title] equal to the given one, character for
    character, and rejected with [undefined] when there is none, an empty
    index included. *)
Theorem search_exact_title (vault : Vault) (title : string) :
  dbPromise vault = Fulfilled tt ->
  Forall (fun d => overviewData (itemOverview d) <> JNull) (details vault) ->
  search vault title
  = match filter (hasTitle title) (details vault) with
    | [] => Rejected None
    | items => Fulfilled items
    end
  /\ (forall d, In d (filter (hasTitle title) (details vault))
                <-> In d (details vault) /\ titled title d)
  /\ (details vault = [] -> search vault title = Rejected None).
Proof.
  intros Hdone Hobj.
  assert (E : search vault title
              = match filter (hasTitle title) (details vault) with
                | [] => Rejected None
                | items => Fulfilled items
                end).
  { unfold search. rewrite Hdone, (filterTitle_filter title _ Hobj).
    destruct (filter (hasTitle title) (details vault)); reflexivity. }
  split; [exact E | split].
  - intros d. rewrite filter_In, hasTitle_titled. reflexivity.
  - intros Hempty. rewrite E, Hempty. reflexivity.
Qed.

Lemma search_exact_title_witness :
  let github := {| itemOverview := Sample.githubKey;
                   itemDetailRaw := None; itemDetail := None |} in
  let gitlab := {| itemOverview := Sample.gitlabKey;
                   itemDetailRaw := None; itemDetail := None |} in
  let vault := {| details := [github; gitlab; github];
                  dbPromise := Fulfilled tt |} in
  search vault "Github" = Fulfilled [github; github]
  /\ search vault "github" = Rejected None
  /\ search vault "Github " = Rejected None.
Proof.
  intros github gitlab vault.
  assert (Hobj : Forall (fun d => overviewData (itemOverview d) <> JNull)
                   (details vault)).
  { repeat constructor; discriminate. }
  split; [|split].
  - destruct (search_exact_title vault "Github" eq_refl Hobj) as [E _].
    rewrite E. reflexivity.
  - destruct (search_exact_title vault "github" eq_refl Hobj) as [E _].
    rewrite E. reflexivity.
  - destruct (search_exact_title vault "Github " eq_refl Hobj) as [E _].
    rewrite E. reflexivity.
Defined.

(** C9 as stated fails when an indexed overview is the JSON value null:
    reading its [title] throws inside the filter, and the search is
    rejected with that exception although another element has the
    title. *)
Lemma search_null_overview :
  let vault :=
    snd (Vault_new (P := Sample.platform)
           (Sample.database [Sample.githubItem; Sample.nullItem]
              [Sample.githubDetail; Sample.nullDetail])
           Sample.password None) in
  dbPromise vault = Fulfilled tt
  /\ (exists d, In d (details vault) /\ titled "Github" d)
  /\ search vault "Github" = Rejected (Some TypeError)
  /\ (forall items, search vault "Github" <> Fulfilled items).
Proof.
  intros vault. split; [vm_compute; reflexivity|]. split; [|split].
  - exists {| itemOverview := Sample.githubKey;
              itemDetailRaw := Some (Sample.bytes "secret 1");
              itemDetail :=
                Some (JObject [("title"%string, JString "secret 1")]) |}.
    split.
    + vm_compute. left. reflexivity.
    + eexists. split; reflexivity.
  - vm_compute. reflexivity.
  - intros items. vm_compute. discriminate.
Qed.

(** ** What the index holds *)

Lemma findKey_id (keys : list Key) (itemId : Z) (key : Key) :
  findKey keys itemId = Some key -> In key keys /\ id key = itemId.
Proof.
  unfold findKey. intros H. apply find_some in H as [Hin Heq].
  split; [exact Hin | apply Z.eqb_eq; exact Heq].
Qed.

Lemma In_pushed (d : Detail) (settled : list (Completion Detail)) :
  In d (pushed settled) <-> In (Normal d) settled.
Proof.
  induction settled as [| [d' | e] settled IH]; cbn [pushed In].
  - reflexivity.
  - rewrite IH. split; intros [H | H]; auto; left; congruence.
  - rewrite IH. split; [auto | intros [H | H]; [discriminate | exact H]].
Qed.

Section Index.
Context {P : Platform}.
Variable keys : list Key.

Lemma detailExecutor_itemOverview (key : Key) (row : DetailRow)
    (d : Detail) :
  snd (detailExecutor key row) = Normal d -> itemOverview d = key.
Proof.
  unfold detailExecutor, bind.
  destruct (snd (decryptKeyData (itemDataKeyPair key) (detail_data row)
                   true)) as [[err | plaintext] | e]; cbn [snd ret].
  - intros H. injection H as <-. reflexivity.
  - unfold parseJSON, bind. cbn [snd emit].
    destruct (JSON_parse plaintext); cbn [snd lift ret throw].
    + intros H. injection H as <-. reflexivity.
    + discriminate.
  - discriminate.
Qed.

(** Every element of the index comes from a detail record, and carries
    the first entry of [keys] that has the record's item id. *)
Lemma settled_from_row (rows : list DetailRow) (d : Detail) :
  In (Normal d) (flat_map (settledDetail keys) rows) ->
  exists row,
    In row rows
    /\ findKey keys (detail_item_id row) = Some (itemOverview d).
Proof.
  intros H. apply in_flat_map in H as (row & Hrow & Hd).
  exists row. split; [exact Hrow|]. unfold settledDetail in Hd.
  destruct (findKey keys (detail_item_id row)) as [key |]; [|contradiction].
  destruct Hd as [Hd | []].
  apply detailExecutor_itemOverview in Hd. congruence.
Qed.

Lemma pushed_first_entry (rows : list DetailRow) (d : Detail) :
  In d (pushed (flat_map (settledDetail keys) rows)) ->
  findKey keys (id (itemOverview d)) = Some (itemOverview d).
Proof.
  intros H. apply In_pushed, settled_from_row in H as (row & _ & Hkey).
  destruct (findKey_id _ _ _ Hkey) as [_ Hid]. rewrite Hid. exact Hkey.
Qed.

(** After a fulfilled [Promise.all], the index has one element per
    detail record of an item that has an entry. *)
Lemma pushed_per_row (itemId : Z) (rows : list DetailRow) :
  Promise_all (flat_map (settledDetail keys) rows) = Normal tt ->
  findKey keys itemId <> None ->
  List.length
    (filter (fun d => id (itemOverview d) =? itemId)
       (pushed (flat_map (settledDetail keys) rows)))
  = List.length (filter (fun row => detail_item_id row =? itemId) rows).
Proof.
  intros Hall Hentry.
  induction rows as [| row rows IH]; [reflexivity|].
  cbn [flat_map filter] in *. unfold settledDetail at 1.
  unfold settledDetail at 1 in Hall.
  destruct (findKey keys (detail_item_id row)) as [key |] eqn:Hkey.
  - cbn [app] in *.
    destruct (snd (detailExecutor key row)) as [d | e] eqn:Hd;
      cbn [Promise_all pushed] in *; [|discriminate].
    apply detailExecutor_itemOverview in Hd.
    destruct (findKey_id _ _ _ Hkey) as [_ Hid].
    cbn [filter]. rewrite Hd, Hid.
    destruct (detail_item_id row =? itemId); cbn [List.length];
      rewrite (IH Hall); reflexivity.
  - cbn [app] in *.
    destruct (detail_item_id row =? itemId) eqn:E.
    + apply Z.eqb_eq in E. congruence.
    + apply (IH Hall).
Qed.

End Index.

Lemma Vault_new_index {P : Platform} (db : Database)
    (masterPassword : Buffer) (profileName : option string)
    (keys : list Key) (itemDetails : list DetailRow) :
  snd (unlockIndex db masterPassword profileName)
  = Normal (keys, itemDetails) ->
  snd (Vault_new db masterPassword profileName)
  = {| details := pushed (flat_map (settledDetail keys) itemDetails);
       dbPromise :=
         settle (Promise_all (flat_map (settledDetail keys) itemDetails)) |}.
Proof.
  intros H. unfold Vault_new. cbv zeta. rewrite H.
  rewrite resolveDetails_settled. reflexivity.
Qed.

Lemma filterTitle_keeps (title : string) (ds items : list Detail) :
  filterTitle title ds = Normal items ->
  items
  = filter (fun d =>
              match titleIs title (overviewData (itemOverview d)) with
              | Normal keep => keep
              | Throw _ => false
              end) ds.
Proof.
  revert items. induction ds as [| d ds IH]; intros items H.
  - injection H as <-. reflexivity.
  - cbn [filterTitle filter] in *.
    destruct (titleIs title (overviewData (itemOverview d))) as [keep | e];
      [|discriminate].
    destruct (filterTitle title ds) as [later | e]; [|discriminate].
    injection H as <-. rewrite <- (IH later eq_refl).
    destruct keep; reflexivity.
Qed.

Lemma filter_filter_implied {A} (f g : A -> bool) (l : list A) :
  (forall x, In x l -> f x = true -> g x = true) ->
  filter f (filter g l) = filter f l.
Proof.
  induction l as [| x l IH]; intros H; [reflexivity|].
  cbn [filter].
  assert (IH' : filter f (filter g l) = filter f l).
  { apply IH. intros y Hy. apply H. right. exact Hy. }
  destruct (g x) eqn:Eg; cbn [filter].
  - rewrite IH'. reflexivity.
  - destruct (f x) eqn:Ef; [|exact IH'].
    rewrite (H x (or_introl eq_refl) Ef) in Eg. discriminate.
Qed.

Lemma search_fulfilled (vault : Vault) (title : string)
    (items : list Detail) :
  search vault title = Fulfilled items ->
  dbPromise vault = Fulfilled tt
  /\ filterTitle title (details vault) = Normal items.
Proof.
  unfold search. destruct (dbPromise vault) as [[] | reason]; [|discriminate].
  destruct (filterTitle title (details vault)) as [[| d l] | e];
    try discriminate.
  intros H. injection H as <-. split; reflexivity.
Qed.

Lemma Promise_all_none_thrown (promises : list (Completion Detail)) :
  (forall e, ~ In (Throw e) promises) -> Promise_all promises = Normal tt.
Proof.
  induction promises as [| [d | e'] promises IH]; cbn [Promise_all];
    intros H.
  - reflexivity.
  - apply IH. intros e Hin. apply (H e). right. exact Hin.
  - exfalso. apply (H e'). left. reflexivity.
Qed.

Lemma settled_none_thrown {P : Platform} (keys : list Key)
    (rows : list DetailRow) :
  (forall row key e,
     In row rows -> findKey keys (detail_item_id row) = Some key ->
     snd (detailExecutor key row) <> Throw e) ->
  Promise_all (flat_map (settledDetail keys) rows) = Normal tt.
Proof.
  intros H. apply Promise_all_none_thrown. intros e Hin.
  apply in_flat_map in Hin as (row & Hrow & Hin).
  unfold settledDetail in Hin.
  destruct (findKey keys (detail_item_id row)) as [key |] eqn:Hkey;
    [|contradiction].
  destruct Hin as [Hin | []]. exact (H row key e Hrow Hkey Hin).
Qed.

Lemma titleIs_true_hasTitle (title : string) (d : Detail) :
  titleIs title (overviewData (itemOverview d)) = Normal true ->
  hasTitle title d = true.
Proof.
  unfold titleIs, hasTitle.
  destruct (overviewData (itemOverview d)); congruence.
Qed.

(** C10: the index that [search] filters has one element per detail
    record, not per item.  When the run reaches the detail records with
    the entries [keys]: an item id that no detail record carries never
    shows in a search result, whatever the title; and when a search for
    the title of an entry is fulfilled, its result holds that entry's
    item once per detail record that carries its id.  When moreover no
    executor of a detail record throws and no overview attached to one is
    null, the constructor's promise is fulfilled, the index holds every
    entry once per detail record of its id, and a search for the title of
    an entry that has detail records is fulfilled with a result that holds
    it once per such record. *)
Theorem index_follows_detail_records {P : Platform} (db : Database)
    (masterPassword : Buffer) (profileName : option string)
    (keys : list Key) (itemDetails : list DetailRow) :
  snd (unlockIndex db masterPassword profileName)
  = Normal (keys, itemDetails) ->
  let vault := snd (Vault_new db masterPassword profileName) in
  let records itemId :=
    List.length
      (filter (fun row => detail_item_id row =? itemId) itemDetails) in
  let shown itemId (ds : list Detail) :=
    List.length (filter (fun d => id (itemOverview d) =? itemId) ds) in
  (forall itemId title items d,
     (forall row, In row itemDetails -> detail_item_id row <> itemId) ->
     search vault title = Fulfilled items ->
     In d items -> id (itemOverview d) <> itemId)
  /\ (forall itemId title items key,
        findKey keys itemId = Some key ->
        titleIs title (overviewData key) = Normal true ->
        search vault title = Fulfilled items ->
        List.length (filter (fun d => id (itemOverview d) =? itemId) items)
        = List.length
            (filter (fun row => detail_item_id row =? itemId) itemDetails))
  /\ (forall itemId,
        dbPromise vault = Fulfilled tt ->
        findKey keys itemId <> None ->
        List.length
          (filter (fun d => id (itemOverview d) =? itemId) (details vault))
        = List.length
            (filter (fun row => detail_item_id row =? itemId) itemDetails))
  /\ ((forall row key,
         In row itemDetails ->
         findKey keys (detail_item_id row) = Some key ->
         overviewData key <> JNull
         /\ forall e, snd (detailExecutor key row) <> Throw e) ->
      dbPromise vault = Fulfilled tt
      /\ (forall itemId,
            findKey keys itemId <> None ->
            shown itemId (details vault) = records itemId)
      /\ (forall itemId,
            records itemId = 0%nat -> shown itemId (details vault) = 0%nat)
      /\ (forall title,
            search vault title
            = match filter (hasTitle title) (details vault) with
              | [] => Rejected None
              | items => Fulfilled items
              end)
      /\ (forall itemId key title,
            findKey keys itemId = Some key ->
            titleIs title (overviewData key) = Normal true ->
            shown itemId (filter (hasTitle title) (details vault))
            = records itemId
            /\ ((0 < records itemId)%nat ->
                exists items,
                  search vault title = Fulfilled items
                  /\ shown itemId items = records itemId))).
Proof.
  intros Hrun vault records shown.
  pose proof (Vault_new_index db masterPassword profileName keys itemDetails
                Hrun) as Hvault.
  fold vault in Hvault. split; [|split; [|split]].
  - intros itemId title items d Hnone Hsearch Hin Hid.
    apply search_fulfilled in Hsearch as [_ Hfilter].
    apply filterTitle_keeps in Hfilter. subst items.
    apply filter_In in Hin as [Hin _].
    rewrite Hvault in Hin. cbn [details] in Hin.
    apply In_pushed, settled_from_row in Hin as (row & Hrow & Hkey).
    destruct (findKey_id _ _ _ Hkey) as [_ Hrowid].
    apply (Hnone row Hrow). congruence.
  - intros itemId title items key Hkey Htitle Hsearch.
    apply search_fulfilled in Hsearch as [Hdone Hfilter].
    apply filterTitle_keeps in Hfilter. subst items.
    rewrite Hvault in Hdone |- *. cbn [details dbPromise] in *.
    rewrite filter_filter_implied.
    + apply pushed_per_row; [|congruence].
      destruct (Promise_all (flat_map (settledDetail keys) itemDetails))
        as [[] | e]; [reflexivity | discriminate].
    + intros d Hin Hid. apply Z.eqb_eq in Hid.
      apply pushed_first_entry in Hin. rewrite Hid, Hkey in Hin.
      injection Hin as <-. rewrite Htitle. reflexivity.
  - intros itemId Hdone Hentry.
    rewrite Hvault in Hdone |- *. cbn [details dbPromise] in *.
    apply pushed_per_row; [|exact Hentry].
    destruct (Promise_all (flat_map (settledDetail keys) itemDetails))
      as [[] | e]; [reflexivity | discriminate].
  - intros Hgood.
    assert (Hall : Promise_all (flat_map (settledDetail keys) itemDetails)
                   = Normal tt).
    { apply settled_none_thrown. intros row key e Hrow Hkey.
      exact (proj2 (Hgood row key Hrow Hkey) e). }
    assert (Hdone : dbPromise vault = Fulfilled tt).
    { rewrite Hvault. cbn [dbPromise]. rewrite Hall. reflexivity. }
    assert (Hobj : Forall (fun d => overviewData (itemOverview d) <> JNull)
                     (details vault)).
    { apply Forall_forall. intros d Hin.
      rewrite Hvault in Hin. cbn [details] in Hin.
      apply In_pushed, settled_from_row in Hin as (row & Hrow & Hkey).
      exact (proj1 (Hgood row (itemOverview d) Hrow Hkey)). }
    assert (Hsearch : forall title,
              search vault title
              = match filter (hasTitle title) (details vault) with
                | [] => Rejected None
                | items => Fulfilled items
                end).
    { intros title. unfold search.
      rewrite Hdone, (filterTitle_filter title _ Hobj).
      destruct (filter (hasTitle title) (details vault)); reflexivity. }
    assert (Hshown : forall itemId,
              findKey keys itemId <> None ->
              shown itemId (details vault) = records itemId).
    { intros itemId Hentry. unfold shown, records.
      rewrite Hvault. cbn [details].
      apply pushed_per_row; assumption. }
    split; [exact Hdone | split; [exact Hshown | split; [|split]]].
    + intros itemId Hzero. unfold shown.
      rewrite (filter_none _ (details vault)); [reflexivity|].
      intros d Hin. apply Z.eqb_neq. intros Hid.
      rewrite Hvault in Hin. cbn [details] in Hin.
      apply In_pushed, settled_from_row in Hin as (row & Hrow & Hkey).
      destruct (findKey_id _ _ _ Hkey) as [_ Hrowid].
      unfold records in Hzero. apply length_zero_iff_nil in Hzero.
      assert (Hrow' : In row (filter (fun row => detail_item_id row =? itemId)
                                itemDetails)).
      { apply filter_In. split; [exact Hrow|]. apply Z.eqb_eq. congruence. }
      rewrite Hzero in Hrow'. exact Hrow'.
    + exact Hsearch.
    + intros itemId key title Hkey Htitle.
      assert (Hcount : shown itemId (filter (hasTitle title) (details vault))
                       = records itemId).
      { rewrite <- (Hshown itemId) by congruence. unfold shown.
        rewrite filter_filter_implied; [reflexivity|].
        intros d Hin Hid. apply Z.eqb_eq in Hid.
        rewrite Hvault in Hin. cbn [details] in Hin.
        apply pushed_first_entry in Hin. rewrite Hid, Hkey in Hin.
        injection Hin as Hd. apply titleIs_true_hasTitle.
        rewrite <- Hd. exact Htitle. }
      split; [exact Hcount|]. intros Hpos.
      exists (filter (hasTitle title) (details vault)).
      split; [|exact Hcount].
      rewrite Hsearch.
      destruct (filter (hasTitle title) (details vault)) as [| d l];
        [|reflexivity].
      exfalso. unfold shown in Hcount. cbn in Hcount. lia.
Qed.

Lemma index_follows_detail_records_witness :
  let vault :=
    snd (Vault_new (P := Sample.platform)
           (Sample.database [Sample.githubItem; Sample.gitlabItem]
              [Sample.gitlabDetail; Sample.foreignDetail])
           Sample.password None) in
  dbPromise vault = Fulfilled tt
  /\ search vault "Github" = Rejected None
  /\ exists items,
       search vault "Gitlab" = Fulfilled items
       /\ List.length (filter (fun d => id (itemOverview d) =? 11) items)
          = 2%nat
       /\ List.length (filter (fun d => id (itemOverview d) =? 10) items)
          = 0%nat.
Proof.
  intros vault.
  destruct (index_follows_detail_records (P := Sample.platform)
              (Sample.database [Sample.githubItem; Sample.gitlabItem]
                 [Sample.gitlabDetail; Sample.foreignDetail])
              Sample.password None
              [Sample.githubKey; Sample.gitlabKey]
              [Sample.gitlabDetail; Sample.foreignDetail])
    as (Hnever & _ & _ & Hgood).
  { vm_compute. reflexivity. }
  destruct Hgood as (Hdone & _ & Hzero & Hsearch & Honce).
  { intros row key [<- | [<- | []]] Hkey; injection Hkey as <-;
      (split; [discriminate | intros e; vm_compute; discriminate]). }
  fold vault in Hdone, Hzero, Hsearch, Honce, Hnever.
  split; [exact Hdone | split].
  - rewrite Hsearch. vm_compute. reflexivity.
  - destruct (Honce 11 Sample.gitlabKey "Gitlab"%string eq_refl eq_refl)
      as [_ Hpos].
    destruct Hpos as (items & Hitems & Hcount).
    { vm_compute. lia. }
    exists items. split; [exact Hitems | split; [exact Hcount|]].
    rewrite (filter_none _ items); [reflexivity|].
    intros d Hin. apply Z.eqb_neq.
    apply (Hnever 10 "Gitlab"%string items d); [|exact Hitems | exact Hin].
    intros row [<- | [<- | []]]; discriminate.
Defined.

(** * Further properties of the code *)

(** ** More on [decryptKeyData] *)

Lemma relIndex_range (len i : Z) :
  0 <= len -> 0 <= JS.relIndex len i <= len.
Proof. intros H. unfold JS.relIndex. destruct (i <? 0) eqn:E; lia. Qed.

Lemma sliceFrom_drops (b : Buffer) (s : Z) :
  JS.sliceFrom b s = skipn (Z.to_nat (JS.relIndex (JS.length b) s)) b.
Proof.
  unfold JS.sliceFrom, JS.slice.
  pose proof (length_nonneg b) as Hn.
  pose proof (relIndex_range (JS.length b) s Hn) as Hs.
  replace (JS.relIndex (JS.length b) (JS.length b)) with (JS.length b)
    by (unfold JS.relIndex; destruct (JS.length b <? 0) eqn:E; lia).
  apply firstn_all2. rewrite length_skipn. unfold JS.length in *. lia.
Qed.

Lemma sliceFrom_suffix_of (b : Buffer) (s : Z) :
  exists dropped, b = dropped ++ JS.sliceFrom b s.
Proof.
  exists (firstn (Z.to_nat (JS.relIndex (JS.length b) s)) b).
  rewrite sliceFrom_drops. symmetry. apply firstn_skipn.
Qed.

(** X1: on a buffer shorter than 16 bytes, with or without header,
    [decryptKeyData] throws the range error of [readUInt32LE] before it
    looks at the magic, computes an HMAC or calls its callback. *)
Theorem short_buffer_throws {P : Platform} (keypair : KeyPair)
    (data : Buffer) (isOpdata01 : bool) :
  JS.length data < 16 ->
  decryptKeyData keypair data isOpdata01
  = ([CallDecryptKeyData keypair data isOpdata01], Throw RangeError)
  /\ forall args,
       snd (decryptKeyData keypair data isOpdata01) <> Normal args.
Proof.
  intros H. rewrite decryptKeyData_short by exact H.
  split; [reflexivity | discriminate].
Qed.

Lemma short_buffer_throws_witness :
  decryptKeyData (P := Sample.platform) Sample.topKeyPair [] false
  = ([CallDecryptKeyData Sample.topKeyPair [] false], Throw RangeError)
  /\ decryptKeyData (P := Sample.platform) Sample.topKeyPair
       (Sample.zeros 15) true
     = ([CallDecryptKeyData Sample.topKeyPair (Sample.zeros 15) true],
        Throw RangeError).
Proof.
  split.
  - apply (short_buffer_throws (P := Sample.platform)). reflexivity.
  - apply (short_buffer_throws (P := Sample.platform)). reflexivity.
Defined.

Lemma sliceFrom_whole (b : Buffer) (s : Z) :
  JS.length b <= - s -> JS.sliceFrom b s = b.
Proof.
  intros H. rewrite sliceFrom_drops. pose proof (length_nonneg b).
  replace (JS.relIndex (JS.length b) s) with 0; [reflexivity|].
  unfold JS.relIndex. destruct (s <? 0) eqn:E; lia.
Qed.

Lemma verified_tag_needs_32_bytes {P : Platform} {L : PlatformLaws P}
    (key data : Buffer) :
  hmac_sha256 key (JS.slice data 0 (-32)) = JS.sliceFrom data (-32) ->
  32 <= JS.length data.
Proof.
  intros E. destruct (Z_lt_le_dec (JS.length data) 32) as [Hs | Hl];
    [exfalso | exact Hl].
  rewrite sliceFrom_whole in E by lia.
  pose proof (hmac_sha256_length key (JS.slice data 0 (-32))) as Hlen.
  rewrite E in Hlen. unfold JS.length in Hs. lia.
Qed.

(** X2: an envelope shorter than 32 bytes never opens.  From 16 bytes on
    its magic can be checked, but the tag it is compared with is the
    whole buffer, which is shorter than an HMAC-SHA256 digest: the call
    ends with one of the two errors and never reaches the cipher. *)
Theorem never_opens_below_32_bytes {P : Platform} {L : PlatformLaws P}
    (keypair : KeyPair) (data : Buffer) (isOpdata01 : bool) :
  16 <= JS.length data < 32 ->
  (snd (decryptKeyData keypair data isOpdata01)
   = Normal (CbErr ChecksumMismatch)
   \/ snd (decryptKeyData keypair data isOpdata01)
      = Normal (CbErr AuthenticationFailure))
  /\ (isOpdata01 = false ->
      snd (decryptKeyData keypair data isOpdata01)
      = Normal (CbErr AuthenticationFailure))
  /\ forall key iv ciphertext,
       ~ In (CallCreateDecipheriv key iv ciphertext)
            (fst (decryptKeyData keypair data isOpdata01)).
Proof.
  intros [Hlo Hhi].
  assert (Hmac : hmac_sha256 (snd keypair) (JS.slice data 0 (-32))
                 <> JS.sliceFrom data (-32)).
  { intros E. apply verified_tag_needs_32_bytes in E. lia. }
  destruct (isOpdata01 && negb (Buffer_eqb (JS.slice data 0 8) opdata01))
    eqn:Hm.
  - apply andb_prop in Hm as [Hf Hc]. apply negb_true_iff in Hc.
    apply Buffer_eqb_neq in Hc.
    rewrite (decryptKeyData_checksum keypair data isOpdata01 Hlo Hf Hc).
    split; [left; reflexivity | split].
    + intros E. rewrite E in Hf. discriminate.
    + intros key iv ciphertext [E | []]. discriminate E.
  - assert (Hmagic : isOpdata01 = false \/ JS.slice data 0 8 = opdata01).
    { apply andb_false_iff in Hm as [Hf | Hc]; [now left | right].
      apply negb_false_iff in Hc. now apply Buffer_eqb_eq. }
    rewrite (decryptKeyData_mac keypair data isOpdata01 Hlo Hmagic Hmac).
    split; [right; reflexivity | split; [reflexivity|]].
    intros key iv ciphertext [E | [E | []]]; discriminate E.
Qed.

Lemma never_opens_below_32_bytes_witness :
  snd (decryptKeyData (P := Sample.platform) Sample.topKeyPair
         (Sample.zeros 31) false)
  = Normal (CbErr (Error "Invalid password")).
Proof.
  destruct (never_opens_below_32_bytes (P := Sample.platform)
              Sample.topKeyPair (Sample.zeros 31) false) as (_ & H & _).
  - split; [vm_compute; discriminate | reflexivity].
  - apply H. reflexivity.
Defined.

(** X3: [decryptKeyData] hands its callback a plaintext only for a
    buffer of at least 32 bytes whose last 32 bytes are the HMAC-SHA256 of
    the rest under the MAC key and, when it is opened as header-bearing,
    whose first 8 bytes are "opdata01"; that plaintext is a suffix of
    what the cipher returned for the bytes between the initialization
    vector and the tag. *)
Theorem opened_plaintext_is_authenticated {P : Platform}
    {L : PlatformLaws P} (keypair : KeyPair) (data : Buffer)
    (isOpdata01 : bool) (plaintext : Buffer) :
  snd (decryptKeyData keypair data isOpdata01) = Normal (CbOk plaintext) ->
  let offset := if isOpdata01 then 16 else 0 in
  32 <= JS.length data
  /\ hmac_sha256 (snd keypair) (JS.slice data 0 (-32))
     = JS.sliceFrom data (-32)
  /\ (isOpdata01 = true -> JS.slice data 0 8 = opdata01)
  /\ exists decrypted padding,
       aes_256_cbc_decrypt (fst keypair)
         (JS.slice data offset (offset + 16))
         (JS.slice data (offset + 16) (-32)) = Some decrypted
       /\ decrypted = padding ++ plaintext.
Proof.
  intros Hopen offset.
  destruct (Z_lt_le_dec (JS.length data) 16) as [Hs | Hl].
  { rewrite decryptKeyData_short in Hopen by exact Hs. discriminate. }
  destruct (isOpdata01 && negb (Buffer_eqb (JS.slice data 0 8) opdata01))
    eqn:Hm.
  { apply andb_prop in Hm as [Hf Hc]. apply negb_true_iff in Hc.
    apply Buffer_eqb_neq in Hc.
    rewrite (decryptKeyData_checksum keypair data isOpdata01 Hl Hf Hc)
      in Hopen.
    discriminate. }
  assert (Hmagic : isOpdata01 = false \/ JS.slice data 0 8 = opdata01).
  { apply andb_false_iff in Hm as [Hf | Hc]; [now left | right].
    apply negb_false_iff in Hc. now apply Buffer_eqb_eq. }
  destruct (list_eq_dec Byte.byte_eq_dec
              (hmac_sha256 (snd keypair) (JS.slice data 0 (-32)))
              (JS.sliceFrom data (-32))) as [He | Hn].
  2:{ rewrite (decryptKeyData_mac keypair data isOpdata01 Hl Hmagic Hn)
        in Hopen.
      discriminate. }
  rewrite (decryptKeyData_cipher keypair data isOpdata01 _ Hl eq_refl
             Hmagic He) in Hopen.
  cbn [snd] in Hopen. fold offset in Hopen.
  split; [exact (verified_tag_needs_32_bytes _ _ He) | split; [exact He|]].
  split.
  - intros Hf. destruct Hmagic as [Hm' | Hm']; [congruence | exact Hm'].
  - destruct (aes_256_cbc_decrypt (fst keypair)
                (JS.slice data offset (offset + 16))
                (JS.slice data (offset + 16) (-32))) as [decrypted |];
      [|discriminate].
    injection Hopen as <-.
    destruct (sliceFrom_suffix_of decrypted
                (- Z.abs (JS.shl (uint32LE data 12) 8 + uint32LE data 8)))
      as [padding Hpad].
    exists decrypted, padding. split; [reflexivity | exact Hpad].
Qed.

Lemma opened_plaintext_is_authenticated_witness :
  let data := master_key_data Sample.profile in
  32 <= JS.length data
  /\ JS.slice data 0 8 = opdata01.
Proof.
  intros data.
  destruct (opened_plaintext_is_authenticated (P := Sample.platform)
              Sample.topKeyPair data true Sample.masterRaw)
    as (Hlen & _ & Hmagic & _).
  - vm_compute. reflexivity.
  - split; [exact Hlen | apply Hmagic; reflexivity].
Defined.

(** X4: an envelope laid out as the comment of lines 218-223 says
    ("opdata01", the length of the plaintext on 8 bytes, a 16-byte
    initialization vector, the encryption of the padded plaintext, the
    HMAC of all that) opens to the plaintext, whatever padding was
    prepended, when the plaintext has between 1 and 2^32 - 1 bytes. *)
Theorem header_envelope_round_trip {P : Platform} {L : PlatformLaws P}
    (keypair : KeyPair) (iv padding plaintext : Buffer) :
  List.length (fst keypair) = 32%nat ->
  List.length iv = 16%nat ->
  (JS.length padding + JS.length plaintext) mod 16 = 0 ->
  0 < JS.length plaintext < 2 ^ 32 ->
  let signed :=
    opdata01 ++ le64 (JS.length plaintext) ++ iv
      ++ aes_256_cbc_encrypt (fst keypair) iv (padding ++ plaintext) in
  snd (decryptKeyData keypair (signed ++ hmac_sha256 (snd keypair) signed)
         true)
  = Normal (CbOk plaintext).
Proof.
  intros Hkey Hiv Haligned Hlen signed.
  exact (open_sealed_roundtrip keypair iv padding plaintext Hkey Hiv
           Haligned Hlen).
Qed.

Lemma header_envelope_round_trip_witness :
  snd (decryptKeyData (P := Sample.platform) Sample.topKeyPair
         (overview_key_data Sample.profile) true)
  = Normal (CbOk Sample.overviewRaw).
Proof.
  apply (header_envelope_round_trip (P := Sample.platform)
           Sample.topKeyPair Sample.iv0 (Sample.zeros 11)
           Sample.overviewRaw).
  - reflexivity.
  - reflexivity.
  - reflexivity.
  - split; reflexivity.
Defined.

Lemma uint32LE_app (a b : Buffer) (offset : Z) :
  0 <= offset -> offset + 4 <= JS.length a ->
  uint32LE (a ++ b) offset = uint32LE a offset.
Proof.
  intros H0 H. unfold uint32LE, JS.length in *. cbv zeta.
  rewrite !app_nth1 by lia. reflexivity.
Qed.

Section Bare.
Context {P : Platform} {L : PlatformLaws P}.
Variables (keypair : KeyPair) (iv padded : Buffer).
Hypothesis encryptionKey_size : List.length (fst keypair) = 32%nat.
Hypothesis iv_size : List.length iv = 16%nat.
Hypothesis aligned : JS.length padded mod 16 = 0.

Let ciphertext : Buffer := aes_256_cbc_encrypt (fst keypair) iv padded.
Let tag : Buffer := hmac_sha256 (snd keypair) (iv ++ ciphertext).
Let envelope : Buffer := (iv ++ ciphertext) ++ tag.

Lemma bare_length_tag : JS.length tag = 32.
Proof. unfold JS.length, tag. rewrite hmac_sha256_length. reflexivity. Qed.

Lemma bare_length_iv : JS.length iv = 16.
Proof. unfold JS.length. rewrite iv_size. reflexivity. Qed.

Lemma bare_length : 16 <= JS.length envelope.
Proof.
  unfold envelope. rewrite !length_app, bare_length_iv, bare_length_tag.
  pose proof (length_nonneg ciphertext). lia.
Qed.

Lemma bare_hmacData : JS.slice envelope 0 (-32) = iv ++ ciphertext.
Proof.
  apply slice_prefix. unfold JS.relIndex.
  change (-32 <? 0) with true. cbv iota.
  rewrite length_app, bare_length_tag.
  pose proof (length_nonneg (iv ++ ciphertext)). lia.
Qed.

Lemma bare_hmacCheck : JS.sliceFrom envelope (-32) = tag.
Proof.
  apply sliceFrom_suffix. unfold JS.relIndex.
  change (-32 <? 0) with true. cbv iota.
  rewrite length_app, bare_length_tag.
  pose proof (length_nonneg (iv ++ ciphertext)). lia.
Qed.

Lemma bare_iv : JS.slice envelope 0 (0 + 16) = iv.
Proof.
  unfold envelope. rewrite <- app_assoc. apply slice_prefix.
  unfold JS.relIndex. change (0 + 16 <? 0) with false. cbv iota.
  rewrite !length_app, bare_length_iv, bare_length_tag.
  pose proof (length_nonneg ciphertext). lia.
Qed.

Lemma bare_ciphertext : JS.slice envelope (0 + 16) (-32) = ciphertext.
Proof.
  unfold envelope. rewrite <- app_assoc.
  pose proof (length_nonneg ciphertext).
  apply slice_middle;
    rewrite !length_app, bare_length_iv, bare_length_tag;
    unfold JS.relIndex.
  - change (0 + 16 <? 0) with false. cbv iota. lia.
  - change (-32 <? 0) with true. cbv iota. lia.
Qed.

Lemma open_bare :
  snd (decryptKeyData keypair envelope false)
  = Normal (CbOk (JS.sliceFrom padded
                    (- Z.abs (JS.shl (uint32LE iv 12) 8 + uint32LE iv 8)))).
Proof.
  rewrite (decryptKeyData_cipher keypair envelope false
             (JS.shl (uint32LE iv 12) 8 + uint32LE iv 8) bare_length).
  - cbn [snd]. rewrite bare_iv, bare_ciphertext. unfold ciphertext.
    rewrite aes_256_cbc_inverse by assumption. reflexivity.
  - unfold envelope. rewrite <- app_assoc.
    rewrite !uint32LE_app by (rewrite ?bare_length_iv; lia). reflexivity.
  - left. reflexivity.
  - rewrite bare_hmacData, bare_hmacCheck. reflexivity.
Qed.

End Bare.

(** X5: an envelope without header (initialization vector, ciphertext,
    tag) has no length field of its own: the number [decryptKeyData]
    takes for the length is spelled by bytes 8 to 15 of the
    initialization vector.  The call returns the trailing bytes of the
    decrypted buffer that this number selects; the whole buffer when the
    number is 0 or at least the buffer's size. *)
Theorem headerless_envelope_length_in_iv {P : Platform}
    {L : PlatformLaws P} (keypair : KeyPair) (iv padded : Buffer) :
  List.length (fst keypair) = 32%nat ->
  List.length iv = 16%nat ->
  JS.length padded mod 16 = 0 ->
  let signed := iv ++ aes_256_cbc_encrypt (fst keypair) iv padded in
  let declared := JS.shl (uint32LE iv 12) 8 + uint32LE iv 8 in
  let opened :=
    snd (decryptKeyData keypair (signed ++ hmac_sha256 (snd keypair) signed)
           false) in
  opened = Normal (CbOk (JS.sliceFrom padded (- Z.abs declared)))
  /\ (declared = 0 \/ JS.length padded <= Z.abs declared ->
      opened = Normal (CbOk padded))
  /\ (0 < Z.abs declared < JS.length padded ->
      opened
      = Normal (CbOk (skipn (Z.to_nat (JS.length padded - Z.abs declared))
                        padded))).
Proof.
  intros Hkey Hiv Haligned signed declared opened.
  assert (E : opened
              = Normal (CbOk (JS.sliceFrom padded (- Z.abs declared)))).
  { exact (open_bare keypair iv padded Hkey Hiv Haligned). }
  split; [exact E | split].
  - intros H. rewrite E. do 2 f_equal.
    destruct H as [H | H].
    + rewrite H. change (- Z.abs 0) with 0.
      rewrite sliceFrom_drops. pose proof (length_nonneg padded).
      replace (JS.relIndex (JS.length padded) 0) with 0; [reflexivity|].
      unfold JS.relIndex. change (0 <? 0) with false. cbv iota. lia.
    + apply sliceFrom_whole. lia.
  - intros H. rewrite E. do 2 f_equal. rewrite sliceFrom_drops.
    do 2 f_equal. unfold JS.relIndex.
    destruct (- Z.abs declared <? 0) eqn:E'; lia.
Qed.

Lemma headerless_envelope_length_in_iv_witness :
  snd (decryptKeyData (P := Sample.platform) Sample.overviewKeyPair
         (overview_data Sample.githubItem) false)
  = Normal (CbOk (Sample.bytes "Github"))
  /\ snd (decryptKeyData (P := Sample.platform) Sample.overviewKeyPair
            (sealBare (P := Sample.platform) Sample.overviewKeyPair
               Sample.iv0 (Sample.zeros 10 ++ Sample.bytes "Github"))
            false)
     = Normal (CbOk (Sample.zeros 10 ++ Sample.bytes "Github")).
Proof.
  split.
  - destruct (headerless_envelope_length_in_iv (P := Sample.platform)
                Sample.overviewKeyPair (Sample.ivDeclaring 6)
                (Sample.zeros 10 ++ Sample.bytes "Github")
                eq_refl eq_refl eq_refl) as (_ & _ & H).
    exact (H (conj eq_refl eq_refl)).
  - destruct (headerless_envelope_length_in_iv (P := Sample.platform)
                Sample.overviewKeyPair Sample.iv0
                (Sample.zeros 10 ++ Sample.bytes "Github")
                eq_refl eq_refl eq_refl) as (_ & H & _).
    exact (H (or_introl eq_refl)).
Defined.

(** ** More on [createKeyPair] *)

(** X6: without the digest flag [createKeyPair] hashes nothing and cuts
    the data at byte 32: the two keys put end to end are the data, so key
    material shorter than 64 bytes gives keys shorter than 32 bytes, and
    up to 32 bytes an empty MAC key. *)
Theorem createKeyPair_plain_cuts {P : Platform} (data : Buffer) :
  exists encryptionKey macKey,
    createKeyPair data false = ([], Normal (encryptionKey, macKey))
    /\ encryptionKey ++ macKey = data
    /\ List.length encryptionKey = Nat.min 32 (List.length data)
    /\ List.length macKey = (List.length data - 32)%nat.
Proof.
  exists (firstn 32 data), (skipn 32 data).
  split; [apply createKeyPair_plain|].
  split; [apply firstn_skipn|].
  split; [apply length_firstn | apply length_skipn].
Qed.

(** X7: with the digest flag [createKeyPair] calls [createHash] once, on
    the data, and whatever the size of the data, the empty buffer
    included, both keys have 32 bytes and together are its SHA-512
    digest. *)
Theorem createKeyPair_digest_sizes {P : Platform} {L : PlatformLaws P}
    (data : Buffer) :
  exists encryptionKey macKey,
    createKeyPair data true
    = ([CallCreateHash data], Normal (encryptionKey, macKey))
    /\ encryptionKey ++ macKey = sha512 data
    /\ List.length encryptionKey = 32%nat
    /\ List.length macKey = 32%nat.
Proof.
  pose proof (sha512_length data) as Hlen.
  exists (firstn 32 (sha512 data)), (skipn 32 (sha512 data)).
  split.
  - rewrite createKeyPair_digest. unfold splitFirstLast.
    rewrite Hlen. reflexivity.
  - split; [apply firstn_skipn|].
    split; [rewrite length_firstn | rewrite length_skipn]; lia.
Qed.

Lemma createKeyPair_digest_sizes_witness :
  exists encryptionKey macKey,
    snd (createKeyPair (P := Sample.platform) [] true)
    = Normal (encryptionKey, macKey)
    /\ List.length encryptionKey = 32%nat
    /\ List.length macKey = 32%nat.
Proof.
  destruct (createKeyPair_digest_sizes (P := Sample.platform) [])
    as (encryptionKey & macKey & E & _ & H1 & H2).
  exists encryptionKey, macKey. rewrite E. repeat split; assumption.
Defined.

(** ** The constructor before the details *)

Lemma Vault_new_rejected {P : Platform} (db : Database)
    (masterPassword : Buffer) (profileName : option string) (e : JsError) :
  snd (unlockIndex db masterPassword profileName) = Throw e ->
  Vault_new db masterPassword profileName
  = (fst (unlockIndex db masterPassword profileName),
     {| details := []; dbPromise := Rejected (Some e) |}).
Proof. intros H. unfold Vault_new. cbv zeta. rewrite H. reflexivity. Qed.

Lemma search_after_rejection (vault : Vault) (reason : option JsError)
    (title : string) :
  dbPromise vault = Rejected reason -> search vault title = Rejected reason.
Proof. intros H. unfold search. rewrite H. reflexivity. Qed.

Section Stages.
Context {P : Platform}.
Variables (db : Database) (masterPassword : Buffer)
  (profileName : option string).

Let name : string :=
  match profileName with
  | None => "default"%string
  | Some name => name
  end.

Lemma unlockIndex_profile_error (e : JsError) :
  db_get_profile db name = inl e ->
  unlockIndex db masterPassword profileName = ([], Throw e).
Proof.
  intros H. unfold unlockIndex, readProfile. fold name. rewrite H.
  reflexivity.
Qed.

Lemma unlockIndex_profile (row : option ProfileRow) :
  db_get_profile db name = inr row ->
  unlockIndex db masterPassword profileName
  = (unlocked <- unlockHierarchy masterPassword row ;;
     items <- sqlite (db_all_items db (profile_id (fst unlocked))) ;;
     keys <- buildKeys (fst (snd unlocked)) (snd (snd unlocked)) items ;;
     itemDetails <- sqlite (db_all_item_details db) ;;
     ret (keys, itemDetails)).
Proof.
  intros H. unfold unlockIndex, readProfile. fold name. rewrite H.
  cbn [sqlite]. rewrite bind_ret. reflexivity.
Qed.

Lemma unlockIndex_hierarchy_throws (row : option ProfileRow)
    (e : JsError) :
  db_get_profile db name = inr row ->
  snd (unlockHierarchy masterPassword row) = Throw e ->
  unlockIndex db masterPassword profileName
  = (fst (unlockHierarchy masterPassword row), Throw e).
Proof.
  intros Hrow H. rewrite (unlockIndex_profile row Hrow).
  apply bind_Throw. exact H.
Qed.

Lemma unlockIndex_items_error (row : option ProfileRow)
    (unlocked : ProfileRow * (KeyPair * KeyPair)) (e : JsError) :
  db_get_profile db name = inr row ->
  snd (unlockHierarchy masterPassword row) = Normal unlocked ->
  db_all_items db (profile_id (fst unlocked)) = inl e ->
  unlockIndex db masterPassword profileName
  = (fst (unlockHierarchy masterPassword row), Throw e).
Proof.
  intros Hrow H Hitems. rewrite (unlockIndex_profile row Hrow).
  rewrite (bind_Normal _ _ _ H). rewrite Hitems. cbn [sqlite].
  unfold bind at 1. cbn [fst snd throw]. rewrite app_nil_r. reflexivity.
Qed.

Lemma unlockIndex_items (row : option ProfileRow)
    (unlocked : ProfileRow * (KeyPair * KeyPair)) (items : list ItemRow) :
  db_get_profile db name = inr row ->
  snd (unlockHierarchy masterPassword row) = Normal unlocked ->
  db_all_items db (profile_id (fst unlocked)) = inr items ->
  unlockIndex db masterPassword profileName
  = (fst (unlockHierarchy masterPassword row)
       ++ fst (keys <- buildKeys (fst (snd unlocked)) (snd (snd unlocked))
                         items ;;
               itemDetails <- sqlite (db_all_item_details db) ;;
               ret (keys, itemDetails)),
     snd (keys <- buildKeys (fst (snd unlocked)) (snd (snd unlocked))
                    items ;;
          itemDetails <- sqlite (db_all_item_details db) ;;
          ret (keys, itemDetails))).
Proof.
  intros Hrow H Hitems. rewrite (unlockIndex_profile row Hrow).
  rewrite (bind_Normal _ _ _ H). rewrite Hitems. cbn [sqlite].
  rewrite bind_ret. reflexivity.
Qed.

Lemma unlockIndex_keys_throw (row : option ProfileRow)
    (unlocked : ProfileRow * (KeyPair * KeyPair)) (items : list ItemRow)
    (e : JsError) :
  db_get_profile db name = inr row ->
  snd (unlockHierarchy masterPassword row) = Normal unlocked ->
  db_all_items db (profile_id (fst unlocked)) = inr items ->
  snd (buildKeys (fst (snd unlocked)) (snd (snd unlocked)) items)
  = Throw e ->
  unlockIndex db masterPassword profileName
  = (fst (unlockHierarchy masterPassword row)
       ++ fst (buildKeys (fst (snd unlocked)) (snd (snd unlocked)) items),
     Throw e).
Proof.
  intros Hrow H Hitems Hkeys.
  rewrite (unlockIndex_items row unlocked items Hrow H Hitems).
  rewrite (bind_Throw _ _ _ Hkeys). reflexivity.
Qed.

Lemma unlockIndex_details (row : option ProfileRow)
    (unlocked : ProfileRow * (KeyPair * KeyPair)) (items : list ItemRow)
    (keys : list Key) :
  db_get_profile db name = inr row ->
  snd (unlockHierarchy masterPassword row) = Normal unlocked ->
  db_all_items db (profile_id (fst unlocked)) = inr items ->
  snd (buildKeys (fst (snd unlocked)) (snd (snd unlocked)) items)
  = Normal keys ->
  unlockIndex db masterPassword profileName
  = (fst (unlockHierarchy masterPassword row)
       ++ fst (buildKeys (fst (snd unlocked)) (snd (snd unlocked)) items),
     match db_all_item_details db with
     | inl e => Throw e
     | inr itemDetails => Normal (keys, itemDetails)
     end).
Proof.
  intros Hrow H Hitems Hkeys.
  rewrite (unlockIndex_items row unlocked items Hrow H Hitems).
  rewrite (bind_Normal _ _ _ Hkeys).
  destruct (db_all_item_details db) as [e | itemDetails]; cbn [sqlite].
  - unfold bind. cbn [fst snd throw]. rewrite app_nil_r. reflexivity.
  - rewrite bind_ret. cbn [fst snd ret]. rewrite app_nil_r. reflexivity.
Qed.

End Stages.

(** X8: when no profile has the name (the query answers no row), the
    constructor's promise is rejected with the TypeError of reading a
    field of [undefined], before any call to the crypto module, and every
    search is rejected with it.  Without a profile name the profile
    looked up is "default". *)
Theorem missing_profile_rejects {P : Platform} (db : Database)
    (masterPassword : Buffer) (profileName : option string) :
  db_get_profile db
    match profileName with
    | None => "default"%string
    | Some name => name
    end = inr None ->
  Vault_new db masterPassword profileName
  = ([], {| details := []; dbPromise := Rejected (Some TypeError) |})
  /\ forall title,
       search (snd (Vault_new db masterPassword profileName)) title
       = Rejected (Some TypeError).
Proof.
  intros H.
  assert (E : unlockIndex db masterPassword profileName
              = ([], Throw TypeError)).
  { apply (unlockIndex_hierarchy_throws db masterPassword profileName None
             TypeError H).
    reflexivity. }
  assert (V : Vault_new db masterPassword profileName
              = ([], {| details := [];
                        dbPromise := Rejected (Some TypeError) |})).
  { rewrite (Vault_new_rejected db masterPassword profileName TypeError)
      by (rewrite E; reflexivity).
    rewrite E. reflexivity. }
  split; [exact V|]. intros title. rewrite V.
  apply search_after_rejection. reflexivity.
Qed.

Lemma missing_profile_rejects_witness :
  dbPromise
    (snd (Vault_new (P := Sample.platform)
            (Sample.database [Sample.githubItem] [Sample.githubDetail])
            Sample.password (Some "work"%string)))
  = Rejected (Some TypeError).
Proof.
  destruct (missing_profile_rejects (P := Sample.platform)
              (Sample.database [Sample.githubItem] [Sample.githubDetail])
              Sample.password (Some "work"%string)) as [E _].
  - reflexivity.
  - rewrite E. reflexivity.
Defined.

(** X9: an error of one of the three queries rejects the constructor's
    promise with that error and leaves the index empty: the profile query
    before any call to the crypto module, the item query once the key
    hierarchy is unlocked and before any item is opened, the detail query
    once every item has been gone through. *)
Theorem query_errors_reject {P : Platform} (db : Database)
    (masterPassword : Buffer) (profileName : option string) (e : JsError) :
  let name := match profileName with
              | None => "default"%string
              | Some name => name
              end in
  let rejected := {| details := []; dbPromise := Rejected (Some e) |} in
  (db_get_profile db name = inl e ->
   Vault_new db masterPassword profileName = ([], rejected))
  /\ (forall row unlocked,
        db_get_profile db name = inr row ->
        snd (unlockHierarchy masterPassword row) = Normal unlocked ->
        db_all_items db (profile_id (fst unlocked)) = inl e ->
        Vault_new db masterPassword profileName
        = (fst (unlockHierarchy masterPassword row), rejected))
  /\ (forall row unlocked items keys,
        db_get_profile db name = inr row ->
        snd (unlockHierarchy masterPassword row) = Normal unlocked ->
        db_all_items db (profile_id (fst unlocked)) = inr items ->
        snd (buildKeys (fst (snd unlocked)) (snd (snd unlocked)) items)
        = Normal keys ->
        db_all_item_details db = inl e ->
        Vault_new db masterPassword profileName
        = (fst (unlockHierarchy masterPassword row)
             ++ fst (buildKeys (fst (snd unlocked)) (snd (snd unlocked))
                       items),
           rejected)).
Proof.
  intros name rejected. split; [|split].
  - intros H.
    pose proof (unlockIndex_profile_error db masterPassword profileName e H)
      as E.
    rewrite (Vault_new_rejected db masterPassword profileName e)
      by (rewrite E; reflexivity).
    rewrite E. reflexivity.
  - intros row unlocked Hrow H Hitems.
    pose proof (unlockIndex_items_error db masterPassword profileName row
                  unlocked e Hrow H Hitems) as E.
    rewrite (Vault_new_rejected db masterPassword profileName e)
      by (rewrite E; reflexivity).
    rewrite E. reflexivity.
  - intros row unlocked items keys Hrow H Hitems Hkeys Hdetails.
    pose proof (unlockIndex_details db masterPassword profileName row
                  unlocked items keys Hrow H Hitems Hkeys) as E.
    rewrite Hdetails in E.
    rewrite (Vault_new_rejected db masterPassword profileName e)
      by (rewrite E; reflexivity).
    rewrite E. reflexivity.
Qed.

Lemma query_errors_reject_witness :
  let db := {| db_get_profile := fun _ => inr (Some Sample.profile);
               db_all_items := fun _ => inl (DbError "database is locked");
               db_all_item_details := inr [] |} in
  dbPromise (snd (Vault_new (P := Sample.platform) db Sample.password None))
  = Rejected (Some (DbError "database is locked")).
Proof.
  intros db.
  destruct (query_errors_reject (P := Sample.platform) db Sample.password
              None (DbError "database is locked")) as (_ & Hitems & _).
  rewrite (Hitems (Some Sample.profile)
             (Sample.profile,
              (Sample.masterKeyPair, Sample.overviewKeyPair))).
  - reflexivity.
  - reflexivity.
  - vm_compute. reflexivity.
  - reflexivity.
Defined.

(** X10: with the profile found and the key derived, when the tag of
    the master key data does not verify under the derived MAC key (a
    wrong master password), the constructor stops there: it has called
    PBKDF2 and one HMAC, it decrypts nothing and reads no item, its
    promise is rejected with the "Invalid password" error, the index is
    empty and every search is rejected with that error. *)
Theorem wrong_password_rejects {P : Platform} (db : Database)
    (masterPassword : Buffer) (profileName : option string)
    (profile : ProfileRow) (key : Buffer) :
  db_get_profile db
    match profileName with
    | None => "default"%string
    | Some name => name
    end = inr (Some profile) ->
  pbkdf2_sha512 masterPassword (salt profile) (iterations profile) 64
  = Some key ->
  16 <= JS.length (master_key_data profile) ->
  JS.slice (master_key_data profile) 0 8 = opdata01 ->
  hmac_sha256 (JS.sliceFrom key 32)
    (JS.slice (master_key_data profile) 0 (-32))
  <> JS.sliceFrom (master_key_data profile) (-32) ->
  let masterPasswordKeyPair := (JS.slice key 0 32, JS.sliceFrom key 32) in
  Vault_new db masterPassword profileName
  = ([CallPbkdf2 masterPassword (salt profile) (iterations profile);
      CallDecryptKeyData masterPasswordKeyPair (master_key_data profile)
        true;
      CallCreateHmac (JS.sliceFrom key 32)
        (JS.slice (master_key_data profile) 0 (-32))],
     {| details := [];
        dbPromise := Rejected (Some AuthenticationFailure) |})
  /\ forall title,
       search (snd (Vault_new db masterPassword profileName)) title
       = Rejected (Some AuthenticationFailure).
Proof.
  intros Hrow Hkey Hlen Hmagic Hmac masterPasswordKeyPair.
  pose proof (decryptKeyData_mac masterPasswordKeyPair
                (master_key_data profile) true Hlen (or_intror Hmagic) Hmac)
    as Hopen.
  pose proof (unlockHierarchy_master_fails masterPassword profile key Hkey
                AuthenticationFailure) as Hfail.
  fold masterPasswordKeyPair in Hfail. rewrite Hopen in Hfail.
  specialize (Hfail (or_introl eq_refl)). cbn [fst snd] in Hfail.
  pose proof (unlockIndex_hierarchy_throws db masterPassword profileName
                (Some profile) AuthenticationFailure Hrow
                ltac:(rewrite Hfail; reflexivity)) as E.
  rewrite Hfail in E. cbn [fst] in E.
  assert (V : Vault_new db masterPassword profileName
              = (fst (unlockIndex db masterPassword profileName),
                 {| details := [];
                    dbPromise := Rejected (Some AuthenticationFailure) |})).
  { apply Vault_new_rejected. rewrite E. reflexivity. }
  rewrite E in V. cbn [fst] in V.
  split; [exact V|]. intros title. rewrite V.
  apply search_after_rejection. reflexivity.
Qed.

Lemma wrong_password_rejects_witness :
  search
    (snd (Vault_new (P := Sample.platform)
            (Sample.database [Sample.githubItem] [Sample.githubDetail])
            (Sample.bytes "hunter3") None))
    "Github"
  = Rejected (Some (Error "Invalid password")).
Proof.
  destruct (wrong_password_rejects (P := Sample.platform)
              (Sample.database [Sample.githubItem] [Sample.githubDetail])
              (Sample.bytes "hunter3") None Sample.profile
              (Sample.digestOf 64
                 (Sample.sumBytes (Sample.bytes "hunter3") + 2)))
    as [_ H].
  - reflexivity.
  - reflexivity.
  - vm_compute. discriminate.
  - reflexivity.
  - vm_compute. discriminate.
  - exact (H "Github"%string).
Defined.

(** ** More on the items *)

Section MoreItems.
Context {P : Platform}.
Variables (masterDataKeyPair overviewDataKeyPair : KeyPair).

Let openOverview (item : ItemRow) : M CallbackArgs :=
  decryptKeyData overviewDataKeyPair (overview_data item) false.
Let openKey (item : ItemRow) : M CallbackArgs :=
  decryptKeyData masterDataKeyPair (key_data item) false.

Lemma itemKeys_key_rejected (item : ItemRow) (overviewRaw : Buffer)
    (e : JsError) :
  snd (openOverview item) = Normal (CbOk overviewRaw) ->
  snd (openKey item) = Normal (CbErr e) ->
  itemKeys masterDataKeyPair overviewDataKeyPair item
  = (fst (openOverview item) ++ fst (openKey item), Normal []).
Proof.
  intros Ho Hk. unfold itemKeys. fold (openOverview item) (openKey item).
  rewrite (bind_Normal _ _ _ Ho). cbv beta iota.
  rewrite (bind_Normal _ _ _ Hk). cbn [fst snd ret].
  rewrite app_nil_r. reflexivity.
Qed.

Lemma itemKeys_key_throws (item : ItemRow) (overviewRaw : Buffer)
    (e : JsError) :
  snd (openOverview item) = Normal (CbOk overviewRaw) ->
  snd (openKey item) = Throw e ->
  itemKeys masterDataKeyPair overviewDataKeyPair item
  = (fst (openOverview item) ++ fst (openKey item), Throw e).
Proof.
  intros Ho Hk. unfold itemKeys. fold (openOverview item) (openKey item).
  rewrite (bind_Normal _ _ _ Ho). cbv beta iota.
  rewrite (bind_Throw _ _ _ Hk). reflexivity.
Qed.

Lemma itemKeys_syntax_error (item : ItemRow) (overviewRaw keyRaw : Buffer) :
  snd (openOverview item) = Normal (CbOk overviewRaw) ->
  snd (openKey item) = Normal (CbOk keyRaw) ->
  JSON_parse overviewRaw = None ->
  itemKeys masterDataKeyPair overviewDataKeyPair item
  = (fst (openOverview item) ++ fst (openKey item)
       ++ [CallJSONparse overviewRaw],
     Throw SyntaxError).
Proof.
  intros Ho Hk Hj. unfold itemKeys. fold (openOverview item) (openKey item).
  rewrite (bind_Normal _ _ _ Ho). cbv beta iota.
  rewrite (bind_Normal _ _ _ Hk). cbv beta iota.
  unfold parseJSON. rewrite Hj.
  destruct (JS.length keyRaw =? 0).
  - rewrite bind_ret, bind_emit. cbn [lift fst snd throw bind app].
    reflexivity.
  - rewrite createKeyPair_plain.
    unfold bind. cbn [lift fst snd throw emit app]. reflexivity.
Qed.

Lemma buildKeys_step (item : ItemRow) (rest : list ItemRow) :
  buildKeys masterDataKeyPair overviewDataKeyPair (item :: rest)
  = match snd (itemKeys masterDataKeyPair overviewDataKeyPair item) with
    | Throw e =>
        (fst (itemKeys masterDataKeyPair overviewDataKeyPair item), Throw e)
    | Normal pushed =>
        (fst (itemKeys masterDataKeyPair overviewDataKeyPair item)
           ++ fst (buildKeys masterDataKeyPair overviewDataKeyPair rest),
         match snd (buildKeys masterDataKeyPair overviewDataKeyPair rest)
         with
         | Throw e => Throw e
         | Normal later => Normal (pushed ++ later)
         end)
    end.
Proof.
  cbn [buildKeys]. unfold bind.
  destruct (snd (itemKeys masterDataKeyPair overviewDataKeyPair item));
    [|reflexivity].
  destruct (snd (buildKeys masterDataKeyPair overviewDataKeyPair rest));
    cbn [fst snd ret]; rewrite ?app_nil_r; reflexivity.
Qed.

Lemma buildKeys_app (before after : list ItemRow) (keys : list Key) :
  snd (buildKeys masterDataKeyPair overviewDataKeyPair before)
  = Normal keys ->
  buildKeys masterDataKeyPair overviewDataKeyPair (before ++ after)
  = (fst (buildKeys masterDataKeyPair overviewDataKeyPair before)
       ++ fst (buildKeys masterDataKeyPair overviewDataKeyPair after),
     match snd (buildKeys masterDataKeyPair overviewDataKeyPair after) with
     | Throw e => Throw e
     | Normal later => Normal (keys ++ later)
     end).
Proof.
  revert keys. induction before as [| item before IH]; intros keys H.
  - cbn in H. injection H as <-. cbn [app fst].
    destruct (buildKeys masterDataKeyPair overviewDataKeyPair after)
      as [calls [later | e]]; reflexivity.
  - cbn [app]. rewrite buildKeys_step in H |- *. rewrite buildKeys_step.
    destruct (snd (itemKeys masterDataKeyPair overviewDataKeyPair item))
      as [pushed | e]; [|discriminate].
    cbn [fst snd] in *.
    destruct (snd (buildKeys masterDataKeyPair overviewDataKeyPair before))
      as [later | e] eqn:Hb; [|discriminate].
    injection H as <-. rewrite (IH later eq_refl). cbn [fst snd].
    rewrite <- !app_assoc.
    destruct (snd (buildKeys masterDataKeyPair overviewDataKeyPair after));
      rewrite <- ?app_assoc; reflexivity.
Qed.

(** The items the loop pushes an entry for. *)
Let opens (item : ItemRow) : bool :=
  match snd (openOverview item), snd (openKey item) with
  | Normal (CbOk _), Normal (CbOk _) => true
  | _, _ => false
  end.

Lemma itemKeys_cases (item : ItemRow) (pushed : list Key) :
  snd (itemKeys masterDataKeyPair overviewDataKeyPair item) = Normal pushed ->
  (opens item = false /\ pushed = [])
  \/ (opens item = true
      /\ exists key,
           pushed = [key]
           /\ id key = item_id item
           /\ snd (openOverview item) = Normal (CbOk (overviewDataRaw key))
           /\ JSON_parse (overviewDataRaw key) = Some (overviewData key)).
Proof.
  intros H. unfold opens.
  destruct (snd (openOverview item)) as [[e | overviewRaw] | e] eqn:Ho.
  - left. rewrite (itemKeys_overview_rejected _ _ _ e Ho) in H.
    injection H as <-. split; reflexivity.
  - destruct (snd (openKey item)) as [[e | keyRaw] | e] eqn:Hk.
    + left. rewrite (itemKeys_key_rejected item overviewRaw e Ho Hk) in H.
      injection H as <-. split; reflexivity.
    + right. split; [reflexivity|].
      destruct (JSON_parse overviewRaw) as [parsed |] eqn:Hj.
      * rewrite (itemKeys_pushes _ _ _ overviewRaw keyRaw parsed Ho Hk Hj)
          in H.
        injection H as <-. eexists. split; [reflexivity|].
        cbn [id overviewDataRaw overviewData]. repeat split. exact Hj.
      * rewrite (itemKeys_syntax_error item overviewRaw keyRaw Ho Hk Hj)
          in H.
        discriminate.
    + rewrite (itemKeys_key_throws item overviewRaw e Ho Hk) in H.
      discriminate.
  - rewrite (itemKeys_overview_throws _ _ _ e Ho) in H. discriminate.
Qed.

Lemma buildKeys_entries (items : list ItemRow) (keys : list Key) :
  snd (buildKeys masterDataKeyPair overviewDataKeyPair items)
  = Normal keys ->
  map id keys = map item_id (filter opens items)
  /\ Forall (fun key =>
               JSON_parse (overviewDataRaw key) = Some (overviewData key)
               /\ exists item,
                    In item items
                    /\ id key = item_id item
                    /\ snd (openOverview item)
                       = Normal (CbOk (overviewDataRaw key))) keys.
Proof.
  revert keys. induction items as [| item items IH]; intros keys H.
  - cbn in H. injection H as <-. split; constructor.
  - rewrite buildKeys_step in H.
    destruct (snd (itemKeys masterDataKeyPair overviewDataKeyPair item))
      as [pushed | e] eqn:Hi; [|discriminate].
    cbn [snd] in H.
    destruct (snd (buildKeys masterDataKeyPair overviewDataKeyPair items))
      as [later | e]; [|discriminate].
    injection H as <-. destruct (IH later eq_refl) as [IHids IHall].
    assert (IHall' : Forall (fun key =>
               JSON_parse (overviewDataRaw key) = Some (overviewData key)
               /\ exists item0,
                    In item0 (item :: items)
                    /\ id key = item_id item0
                    /\ snd (openOverview item0)
                       = Normal (CbOk (overviewDataRaw key))) later).
    { eapply Forall_impl; [|exact IHall].
      intros key (Hj & item0 & Hin & Hid & Ho).
      split; [exact Hj|]. exists item0. split; [right; exact Hin|].
      split; assumption. }
    cbn [filter].
    destruct (itemKeys_cases item pushed Hi)
      as [[Hno ->] | (Hyes & key & -> & Hid & Ho & Hj)].
    + rewrite Hno. cbn [app]. split; assumption.
    + rewrite Hyes. cbn [app map]. split.
      * rewrite Hid, IHids. reflexivity.
      * constructor; [|exact IHall'].
        split; [exact Hj|]. exists item.
        split; [left; reflexivity|]. split; assumption.
Qed.

End MoreItems.

(** X11: when the loop over the items completes, [keys] holds one entry
    for each item whose overview and key data both open, in the order of
    the items and under the item's id, and no entry for any other item;
    every entry's parsed overview is the JSON of the overview plaintext it
    keeps beside it. *)
Theorem keys_are_the_items_that_open {P : Platform}
    (masterDataKeyPair overviewDataKeyPair : KeyPair)
    (items : list ItemRow) (keys : list Key) :
  snd (buildKeys masterDataKeyPair overviewDataKeyPair items)
  = Normal keys ->
  let opens item :=
    match
      snd (decryptKeyData overviewDataKeyPair (overview_data item) false),
      snd (decryptKeyData masterDataKeyPair (key_data item) false)
    with
    | Normal (CbOk _), Normal (CbOk _) => true
    | _, _ => false
    end in
  map id keys = map item_id (filter opens items)
  /\ Forall (fun key =>
               JSON_parse (overviewDataRaw key) = Some (overviewData key)
               /\ exists item,
                    In item items
                    /\ id key = item_id item
                    /\ snd (decryptKeyData overviewDataKeyPair
                              (overview_data item) false)
                       = Normal (CbOk (overviewDataRaw key))) keys.
Proof.
  intros H opens.
  exact (buildKeys_entries masterDataKeyPair overviewDataKeyPair items
           keys H).
Qed.

Lemma keys_are_the_items_that_open_witness :
  exists keys,
    snd (buildKeys (P := Sample.platform) Sample.masterKeyPair
           Sample.overviewKeyPair
           [Sample.tamperedItem; Sample.githubItem; Sample.gitlabItem])
    = Normal keys
    /\ map id keys = [10; 11].
Proof.
  exists [Sample.githubKey; Sample.gitlabKey].
  assert (H : snd (buildKeys (P := Sample.platform) Sample.masterKeyPair
                     Sample.overviewKeyPair
                     [Sample.tamperedItem; Sample.githubItem;
                      Sample.gitlabItem])
              = Normal [Sample.githubKey; Sample.gitlabKey]).
  { vm_compute. reflexivity. }
  split; [exact H|].
  destruct (keys_are_the_items_that_open (P := Sample.platform) _ _ _ _ H)
    as [Hids _].
  rewrite Hids. vm_compute. reflexivity.
Defined.

(** X12: an exception while an item is gone through ends the loop at
    that item, after the items before it: the run is rejected with the
    exception and no later item is opened. *)
Theorem item_exception_rejects {P : Platform}
    (masterDataKeyPair overviewDataKeyPair : KeyPair)
    (before after : list ItemRow) (item : ItemRow) (keys : list Key)
    (e : JsError) :
  snd (buildKeys masterDataKeyPair overviewDataKeyPair before)
  = Normal keys ->
  snd (itemKeys masterDataKeyPair overviewDataKeyPair item) = Throw e ->
  buildKeys masterDataKeyPair overviewDataKeyPair (before ++ item :: after)
  = (fst (buildKeys masterDataKeyPair overviewDataKeyPair before)
       ++ fst (itemKeys masterDataKeyPair overviewDataKeyPair item),
     Throw e).
Proof.
  intros Hbefore Hitem.
  rewrite (buildKeys_app _ _ before (item :: after) keys Hbefore).
  rewrite buildKeys_step, Hitem. reflexivity.
Qed.

Lemma item_exception_rejects_witness :
  let short := {| item_id := 14;
                  key_data := key_data Sample.githubItem;
                  overview_data := Sample.zeros 8 |} in
  snd (buildKeys (P := Sample.platform) Sample.masterKeyPair
         Sample.overviewKeyPair
         [Sample.githubItem; short; Sample.gitlabItem])
  = Throw RangeError.
Proof.
  intros short.
  assert (Hbefore : snd (buildKeys (P := Sample.platform)
                           Sample.masterKeyPair Sample.overviewKeyPair
                           [Sample.githubItem])
                    = Normal [Sample.githubKey]).
  { vm_compute. reflexivity. }
  assert (Hitem : snd (itemKeys (P := Sample.platform) Sample.masterKeyPair
                         Sample.overviewKeyPair short)
                  = Throw RangeError).
  { vm_compute. reflexivity. }
  exact (f_equal snd
           (item_exception_rejects (P := Sample.platform)
              Sample.masterKeyPair Sample.overviewKeyPair
              [Sample.githubItem] [Sample.gitlabItem] short
              [Sample.githubKey] RangeError Hbefore Hitem)).
Defined.

(** X13: going through an item throws in exactly three cases: opening
    its overview throws; the overview opens and opening its key data
    throws; both open and the overview plaintext is not JSON, which is a
    syntax error.  An error handed to a callback never throws. *)
Theorem item_exceptions {P : Platform}
    (masterDataKeyPair overviewDataKeyPair : KeyPair) (item : ItemRow)
    (e : JsError) :
  let openOverview :=
    decryptKeyData overviewDataKeyPair (overview_data item) false in
  let openKey := decryptKeyData masterDataKeyPair (key_data item) false in
  snd (itemKeys masterDataKeyPair overviewDataKeyPair item) = Throw e
  <-> snd openOverview = Throw e
      \/ exists overviewRaw,
           snd openOverview = Normal (CbOk overviewRaw)
           /\ (snd openKey = Throw e
               \/ exists keyRaw,
                    snd openKey = Normal (CbOk keyRaw)
                    /\ JSON_parse overviewRaw = None
                    /\ e = SyntaxError).
Proof.
  intros openOverview openKey. split.
  - intros H.
    destruct (snd openOverview) as [[e' | overviewRaw] | e'] eqn:Ho.
    + rewrite (itemKeys_overview_rejected _ _ _ e' Ho) in H. discriminate.
    + right. exists overviewRaw. split; [reflexivity|].
      destruct (snd openKey) as [[e' | keyRaw] | e'] eqn:Hk.
      * rewrite (itemKeys_key_rejected _ _ item overviewRaw e' Ho Hk) in H.
        discriminate.
      * right. exists keyRaw. split; [reflexivity|].
        destruct (JSON_parse overviewRaw) as [parsed |] eqn:Hj.
        -- rewrite (itemKeys_pushes _ _ _ overviewRaw keyRaw parsed Ho Hk Hj)
             in H.
           discriminate.
        -- rewrite (itemKeys_syntax_error _ _ item overviewRaw keyRaw Ho Hk
                      Hj) in H.
           injection H as <-. split; reflexivity.
      * left. rewrite (itemKeys_key_throws _ _ item overviewRaw e' Ho Hk)
          in H.
        injection H as <-. reflexivity.
    + left. rewrite (itemKeys_overview_throws _ _ _ e' Ho) in H.
      injection H as <-. reflexivity.
  - intros [Ho | (overviewRaw & Ho & [Hk | (keyRaw & Hk & Hj & ->)])].
    + rewrite (itemKeys_overview_throws _ _ _ e Ho). reflexivity.
    + rewrite (itemKeys_key_throws _ _ item overviewRaw e Ho Hk).
      reflexivity.
    + rewrite (itemKeys_syntax_error _ _ item overviewRaw keyRaw Ho Hk Hj).
      reflexivity.
Qed.

Lemma item_exceptions_witness :
  let item := {| item_id := 15;
                 key_data := key_data Sample.githubItem;
                 overview_data :=
                   sealBare (P := Sample.platform) Sample.overviewKeyPair
                     Sample.iv0 [] |} in
  snd (itemKeys (P := Sample.platform) Sample.masterKeyPair
         Sample.overviewKeyPair item)
  = Throw SyntaxError.
Proof.
  intros item.
  apply (item_exceptions (P := Sample.platform) Sample.masterKeyPair
           Sample.overviewKeyPair item SyntaxError).
  right. exists []. split; [vm_compute; reflexivity|].
  right. exists []. split; [vm_compute; reflexivity|].
  split; reflexivity.
Defined.

(** X14: when the overview of an item opens and its key data is refused
    with an error handed to the callback (its tag does not verify), the
    item pushes no entry, its overview is not even parsed, and the loop
    goes on as it does without the item. *)
Theorem key_data_failure_skips_item {P : Platform}
    (masterDataKeyPair overviewDataKeyPair : KeyPair) (item : ItemRow)
    (rest : list ItemRow) (overviewRaw : Buffer) (e : JsError) :
  snd (decryptKeyData overviewDataKeyPair (overview_data item) false)
  = Normal (CbOk overviewRaw) ->
  snd (decryptKeyData masterDataKeyPair (key_data item) false)
  = Normal (CbErr e) ->
  itemKeys masterDataKeyPair overviewDataKeyPair item
  = (fst (decryptKeyData overviewDataKeyPair (overview_data item) false)
       ++ fst (decryptKeyData masterDataKeyPair (key_data item) false),
     Normal [])
  /\ snd (buildKeys masterDataKeyPair overviewDataKeyPair (item :: rest))
     = snd (buildKeys masterDataKeyPair overviewDataKeyPair rest).
Proof.
  intros Ho Hk.
  pose proof (itemKeys_key_rejected masterDataKeyPair overviewDataKeyPair
                item overviewRaw e Ho Hk) as E.
  split; [exact E|]. rewrite buildKeys_step, E. cbn [snd app].
  destruct (snd (buildKeys masterDataKeyPair overviewDataKeyPair rest));
    reflexivity.
Qed.

Lemma key_data_failure_skips_item_witness :
  let item := {| item_id := 16;
                 key_data := Sample.overview_data_of_tampered;
                 overview_data := overview_data Sample.githubItem |} in
  snd (buildKeys (P := Sample.platform) Sample.masterKeyPair
         Sample.overviewKeyPair [item; Sample.gitlabItem])
  = Normal [Sample.gitlabKey].
Proof.
  intros item.
  destruct (key_data_failure_skips_item (P := Sample.platform)
              Sample.masterKeyPair Sample.overviewKeyPair item
              [Sample.gitlabItem] (Sample.bytes "Github")
              (Error "Invalid password")) as [_ E].
  - vm_compute. reflexivity.
  - vm_compute. reflexivity.
  - rewrite E. vm_compute. reflexivity.
Defined.

(** ** More on the details *)

Lemma detailExecutor_resolved {P : Platform} (key : Key) (row : DetailRow)
    (plaintext : Buffer) (parsed : json) :
  snd (decryptKeyData (itemDataKeyPair key) (detail_data row) true)
  = Normal (CbOk plaintext) ->
  JSON_parse plaintext = Some parsed ->
  snd (detailExecutor key row)
  = Normal {| itemOverview := key;
              itemDetailRaw := Some plaintext;
              itemDetail := Some parsed |}.
Proof.
  intros H Hj. unfold detailExecutor. rewrite (bind_Normal _ _ _ H).
  cbn [snd]. unfold parseJSON. rewrite Hj. reflexivity.
Qed.

Lemma detailExecutor_syntax_error {P : Platform} (key : Key)
    (row : DetailRow) (plaintext : Buffer) :
  snd (decryptKeyData (itemDataKeyPair key) (detail_data row) true)
  = Normal (CbOk plaintext) ->
  JSON_parse plaintext = None ->
  snd (detailExecutor key row) = Throw SyntaxError.
Proof.
  intros H Hj. unfold detailExecutor. rewrite (bind_Normal _ _ _ H).
  cbn [snd]. unfold parseJSON. rewrite Hj. reflexivity.
Qed.

(** X15: what the executor of a matched detail record does with a
    detail that is not refused through the callback: when it opens and
    parses, the element pushed carries the entry, the plaintext and its
    JSON; when it opens and does not parse (the empty plaintext
    included, a Buffer being truthy), the executor throws the syntax
    error; when opening throws, the executor throws the same. *)
Theorem detail_outcomes {P : Platform} (key : Key) (row : DetailRow) :
  let opened :=
    snd (decryptKeyData (itemDataKeyPair key) (detail_data row) true) in
  (forall plaintext parsed,
     opened = Normal (CbOk plaintext) ->
     JSON_parse plaintext = Some parsed ->
     snd (detailExecutor key row)
     = Normal {| itemOverview := key;
                 itemDetailRaw := Some plaintext;
                 itemDetail := Some parsed |})
  /\ (forall plaintext,
        opened = Normal (CbOk plaintext) ->
        JSON_parse plaintext = None ->
        snd (detailExecutor key row) = Throw SyntaxError)
  /\ (forall e, opened = Throw e -> snd (detailExecutor key row) = Throw e).
Proof.
  intros opened. split; [|split].
  - intros plaintext parsed. apply detailExecutor_resolved.
  - intros plaintext. apply detailExecutor_syntax_error.
  - intros e. apply detailExecutor_throws.
Qed.

Lemma detail_outcomes_witness :
  snd (detailExecutor (P := Sample.platform) Sample.gitlabKey
         Sample.gitlabDetail)
  = Normal {| itemOverview := Sample.gitlabKey;
              itemDetailRaw := Some (Sample.bytes "secret 2");
              itemDetail :=
                Some (JObject [("title"%string, JString "secret 2")]) |}
  /\ snd (detailExecutor (P := Sample.platform) Sample.githubKey
            Sample.emptyDetail)
     = Throw RangeError.
Proof.
  split.
  - destruct (detail_outcomes (P := Sample.platform) Sample.gitlabKey
                Sample.gitlabDetail) as (H & _ & _).
    apply H; vm_compute; reflexivity.
  - destruct (detail_outcomes (P := Sample.platform) Sample.githubKey
                Sample.emptyDetail) as (_ & _ & H).
    apply H. vm_compute. reflexivity.
Defined.

Lemma Promise_all_first_rejected (a b : list (Completion Detail))
    (e : JsError) :
  Promise_all a = Normal tt ->
  Promise_all (a ++ Throw e :: b) = Throw e.
Proof.
  induction a as [| [d | e'] a IH]; cbn [app Promise_all]; intros H.
  - reflexivity.
  - apply IH. exact H.
  - discriminate.
Qed.

(** X16: when the executor of a detail record throws and those of the
    records before it did not, the constructor's promise is rejected
    with that exception and every search with it; yet every record that
    resolved, before or after, has pushed its element on the index. *)
Theorem first_thrown_detail_rejects {P : Platform} (db : Database)
    (masterPassword : Buffer) (profileName : option string)
    (keys : list Key) (before after : list DetailRow) (row : DetailRow)
    (key : Key) (e : JsError) :
  snd (unlockIndex db masterPassword profileName)
  = Normal (keys, before ++ row :: after) ->
  Promise_all (flat_map (settledDetail keys) before) = Normal tt ->
  findKey keys (detail_item_id row) = Some key ->
  snd (detailExecutor key row) = Throw e ->
  let vault := snd (Vault_new db masterPassword profileName) in
  dbPromise vault = Rejected (Some e)
  /\ details vault
     = pushed (flat_map (settledDetail keys) before)
         ++ pushed (flat_map (settledDetail keys) after)
  /\ forall title, search vault title = Rejected (Some e).
Proof.
  intros Hrun Hbefore Hkey Hthrow vault.
  pose proof (Vault_new_index db masterPassword profileName keys
                (before ++ row :: after) Hrun) as Hvault.
  fold vault in Hvault.
  rewrite flat_map_app in Hvault. cbn [flat_map] in Hvault.
  unfold settledDetail at 2 5 in Hvault.
  rewrite Hkey, Hthrow in Hvault. cbn [app] in Hvault.
  rewrite (Promise_all_first_rejected _ _ e Hbefore) in Hvault.
  rewrite pushed_app in Hvault. cbn [pushed settle] in Hvault.
  assert (Hp : dbPromise vault = Rejected (Some e))
    by (rewrite Hvault; reflexivity).
  split; [exact Hp | split].
  - rewrite Hvault. reflexivity.
  - intros title. apply search_after_rejection. exact Hp.
Qed.

Lemma first_thrown_detail_rejects_witness :
  let vault :=
    snd (Vault_new (P := Sample.platform)
           (Sample.database [Sample.githubItem; Sample.gitlabItem]
              [Sample.githubDetail; Sample.emptyDetail; Sample.gitlabDetail])
           Sample.password None) in
  dbPromise vault = Rejected (Some RangeError)
  /\ List.length (details vault) = 2%nat.
Proof.
  intros vault.
  destruct (first_thrown_detail_rejects (P := Sample.platform)
              (Sample.database [Sample.githubItem; Sample.gitlabItem]
                 [Sample.githubDetail; Sample.emptyDetail;
                  Sample.gitlabDetail])
              Sample.password None
              [Sample.githubKey; Sample.gitlabKey]
              [Sample.githubDetail] [Sample.gitlabDetail]
              Sample.emptyDetail Sample.githubKey RangeError)
    as (Hp & Hd & _).
  - vm_compute. reflexivity.
  - vm_compute. reflexivity.
  - reflexivity.
  - vm_compute. reflexivity.
  - split; [exact Hp|]. fold vault in Hd. rewrite Hd.
    vm_compute. reflexivity.
Defined.

(** X17: every element of the index carries an entry of [keys], namely
    the first one that has its id: when two entries share an id, every
    detail record of that id is attached to the earlier one. *)
Theorem details_carry_first_entry {P : Platform} (db : Database)
    (masterPassword : Buffer) (profileName : option string)
    (keys : list Key) (itemDetails : list DetailRow) (d : Detail) :
  snd (unlockIndex db masterPassword profileName)
  = Normal (keys, itemDetails) ->
  In d (details (snd (Vault_new db masterPassword profileName))) ->
  In (itemOverview d) keys
  /\ findKey keys (id (itemOverview d)) = Some (itemOverview d)
  /\ exists row,
       In row itemDetails /\ detail_item_id row = id (itemOverview d).
Proof.
  intros Hrun Hin.
  rewrite (Vault_new_index db masterPassword profileName keys itemDetails
             Hrun) in Hin.
  cbn [details] in Hin.
  pose proof (pushed_first_entry keys itemDetails d Hin) as Hfirst.
  split; [exact (proj1 (findKey_id _ _ _ Hfirst)) | split; [exact Hfirst|]].
  apply In_pushed, settled_from_row in Hin as (row & Hrow & Hkey).
  exists row. split; [exact Hrow|].
  symmetry. exact (proj2 (findKey_id _ _ _ Hkey)).
Qed.

Lemma details_carry_first_entry_witness :
  let shadowed := {| item_id := 10;
                     key_data := key_data Sample.gitlabItem;
                     overview_data := overview_data Sample.gitlabItem |} in
  let vault :=
    snd (Vault_new (P := Sample.platform)
           (Sample.database [Sample.githubItem; shadowed]
              [Sample.githubDetail])
           Sample.password None) in
  Forall (fun d => itemOverview d = Sample.githubKey) (details vault).
Proof.
  intros shadowed vault. apply Forall_forall. intros d Hin.
  pose (keys := [Sample.githubKey;
                 {| overviewDataRaw := Sample.bytes "Gitlab";
                    overviewData :=
                      JObject [("title"%string, JString "Gitlab")];
                    itemDataKeyPair := Sample.gitlabKeyPair;
                    id := 10 |}]).
  destruct (details_carry_first_entry (P := Sample.platform)
              (Sample.database [Sample.githubItem; shadowed]
                 [Sample.githubDetail])
              Sample.password None keys [Sample.githubDetail] d)
    as (_ & Hfirst & row & Hrow & Hid).
  - vm_compute. reflexivity.
  - exact Hin.
  - destruct Hrow as [<- | []]. rewrite <- Hid in Hfirst.
    change (findKey keys (detail_item_id Sample.githubDetail))
      with (Some Sample.githubKey) in Hfirst.
    injection Hfirst as <-. reflexivity.
Defined.

Lemma pushed_ids_in_order {P : Platform} (keys : list Key)
    (rows : list DetailRow) :
  Promise_all (flat_map (settledDetail keys) rows) = Normal tt ->
  map (fun d => id (itemOverview d))
    (pushed (flat_map (settledDetail keys) rows))
  = filter (fun itemId => match findKey keys itemId with
                          | Some _ => true
                          | None => false
                          end)
      (map detail_item_id rows).
Proof.
  induction rows as [| row rows IH]; intros Hall; [reflexivity|].
  cbn [flat_map map filter] in *. unfold settledDetail at 1.
  unfold settledDetail at 1 in Hall.
  destruct (findKey keys (detail_item_id row)) as [key |] eqn:Hkey.
  - cbn [app] in *.
    destruct (snd (detailExecutor key row)) as [d | e] eqn:Hd;
      cbn [Promise_all pushed map] in *; [|discriminate].
    apply detailExecutor_itemOverview in Hd.
    destruct (findKey_id _ _ _ Hkey) as [_ Hid].
    rewrite Hd, Hid, (IH Hall). reflexivity.
  - cbn [app] in *. apply (IH Hall).
Qed.

(** X18: once the constructor's promise is fulfilled, the index lists
    the detail records in the order of the query, leaving out exactly
    those whose item id has no entry: the item ids of its elements are
    the item ids of the detail records that have an entry. *)
Theorem index_in_detail_order {P : Platform} (db : Database)
    (masterPassword : Buffer) (profileName : option string)
    (keys : list Key) (itemDetails : list DetailRow) :
  snd (unlockIndex db masterPassword profileName)
  = Normal (keys, itemDetails) ->
  let vault := snd (Vault_new db masterPassword profileName) in
  dbPromise vault = Fulfilled tt ->
  map (fun d => id (itemOverview d)) (details vault)
  = filter (fun itemId => match findKey keys itemId with
                          | Some _ => true
                          | None => false
                          end)
      (map detail_item_id itemDetails).
Proof.
  intros Hrun vault Hdone.
  pose proof (Vault_new_index db masterPassword profileName keys itemDetails
                Hrun) as Hvault.
  fold vault in Hvault. rewrite Hvault in Hdone |- *.
  cbn [details dbPromise] in *.
  apply pushed_ids_in_order.
  destruct (Promise_all (flat_map (settledDetail keys) itemDetails))
    as [[] | e]; [reflexivity | discriminate].
Qed.

Lemma index_in_detail_order_witness :
  map (fun d => id (itemOverview d))
    (details
       (snd (Vault_new (P := Sample.platform)
               (Sample.database [Sample.githubItem; Sample.gitlabItem]
                  [Sample.gitlabDetail; Sample.orphanDetail;
                   Sample.githubDetail; Sample.foreignDetail])
               Sample.password None)))
  = [11; 10; 11].
Proof.
  rewrite (index_in_detail_order (P := Sample.platform)
             (Sample.database [Sample.githubItem; Sample.gitlabItem]
                [Sample.gitlabDetail; Sample.orphanDetail;
                 Sample.githubDetail; Sample.foreignDetail])
             Sample.password None
             [Sample.githubKey; Sample.gitlabKey]
             [Sample.gitlabDetail; Sample.orphanDetail;
              Sample.githubDetail; Sample.foreignDetail]).
  - reflexivity.
  - vm_compute. reflexivity.
  - vm_compute. reflexivity.
Defined.

(** ** More on [search] *)

(** X19: a fulfilled search never holds an empty result: it holds, in
    the order of the index, exactly the elements of the index titled as
    asked; and it can only be fulfilled when the constructor's promise is
    and no indexed overview is null. *)
Theorem fulfilled_search_is_exact (vault : Vault) (title : string)
    (items : list Detail) :
  search vault title = Fulfilled items ->
  items <> []
  /\ items = filter (hasTitle title) (details vault)
  /\ Forall (titled title) items
  /\ dbPromise vault = Fulfilled tt
  /\ Forall (fun d => overviewData (itemOverview d) <> JNull)
       (details vault).
Proof.
  intros H.
  assert (Hne : items <> []).
  { unfold search in H. destruct (dbPromise vault); [|discriminate].
    destruct (filterTitle title (details vault)) as [[| d l] | e];
      try discriminate.
    injection H as <-. discriminate. }
  apply search_fulfilled in H as [Hdone Hfilter].
  assert (Hobj : Forall (fun d => overviewData (itemOverview d) <> JNull)
                   (details vault)).
  { apply Forall_forall. intros d Hin Hnull.
    rewrite (filterTitle_null title (details vault)) in Hfilter;
      [discriminate|].
    apply Exists_exists. exists d. split; assumption. }
  rewrite (filterTitle_filter title _ Hobj) in Hfilter.
  injection Hfilter as Hitems.
  split; [exact Hne | split; [symmetry; exact Hitems | split]].
  - apply Forall_forall. intros d Hin. rewrite <- Hitems in Hin.
    apply filter_In in Hin as [_ Ht]. apply hasTitle_titled. exact Ht.
  - split; assumption.
Qed.

Lemma fulfilled_search_is_exact_witness :
  let github := {| itemOverview := Sample.githubKey;
                   itemDetailRaw := None; itemDetail := None |} in
  let gitlab := {| itemOverview := Sample.gitlabKey;
                   itemDetailRaw := None; itemDetail := None |} in
  let vault := {| details := [github; gitlab; github];
                  dbPromise := Fulfilled tt |} in
  search vault "Gitlab" = Fulfilled [gitlab]
  /\ Forall (titled "Gitlab") [gitlab].
Proof.
  intros github gitlab vault.
  assert (H : search vault "Gitlab" = Fulfilled [gitlab]) by reflexivity.
  split; [exact H|].
  destruct (fulfilled_search_is_exact vault "Gitlab" [gitlab] H)
    as (_ & _ & Ht & _).
  exact Ht.
Defined.

(** X20: once the constructor's promise is fulfilled, one indexed
    overview that is the JSON value null makes every search fail, for
    every title, with the TypeError of reading its [title]. *)
Theorem null_overview_blocks_search (vault : Vault) (title : string) :
  dbPromise vault = Fulfilled tt ->
  Exists (fun d => overviewData (itemOverview d) = JNull) (details vault) ->
  search vault title = Rejected (Some TypeError).
Proof.
  intros Hdone Hnull. unfold search.
  rewrite Hdone, (filterTitle_null title _ Hnull). reflexivity.
Qed.

Lemma null_overview_blocks_search_witness :
  let null := {| itemOverview :=
                   {| overviewDataRaw := Sample.bytes "null";
                      overviewData := JNull;
                      itemDataKeyPair := Sample.overviewKeyPair;
                      id := 13 |};
                 itemDetailRaw := None;
                 itemDetail := None |} in
  let github := {| itemOverview := Sample.githubKey;
                   itemDetailRaw := None; itemDetail := None |} in
  search {| details := [github; null]; dbPromise := Fulfilled tt |} "Github"
  = Rejected (Some TypeError).
Proof.
  intros null github.
  apply null_overview_blocks_search.
  - reflexivity.
  - right. left. reflexivity.
Defined.

(** ** How often the platform is called *)

Lemma countCalls_app (f : Event -> bool) (a b : list Event) :
  countCalls f (a ++ b) = (countCalls f a + countCalls f b)%nat.
Proof. unfold countCalls. rewrite filter_app. apply List.length_app. Qed.

Lemma countCalls_bind {A B} (f : Event -> bool) (m : M A) (k : A -> M B)
    (n1 n2 : nat) :
  (countCalls f (fst m) <= n1)%nat ->
  (forall a, snd m = Normal a -> (countCalls f (fst (k a)) <= n2)%nat) ->
  (countCalls f (fst (bind m k)) <= n1 + n2)%nat.
Proof.
  unfold bind. intros H1 H2.
  destruct (snd m) as [a | e]; cbn [fst].
  - rewrite countCalls_app. specialize (H2 a eq_refl). lia.
  - lia.
Qed.

Section Counting.
Context {P : Platform}.
Variable f : Event -> bool.
Variables nd nh np : nat.
Hypothesis f_decrypt : forall keypair data isOpdata01,
  ((if f (CallDecryptKeyData keypair data isOpdata01) then 1 else 0)
   <= nd)%nat.
Hypothesis f_hash : forall data,
  ((if f (CallCreateHash data) then 1 else 0) <= nh)%nat.
Hypothesis f_pbkdf2 : forall password salt iterations,
  ((if f (CallPbkdf2 password salt iterations) then 1 else 0) <= np)%nat.
Hypothesis f_hmac : forall key signed, f (CallCreateHmac key signed) = false.
Hypothesis f_decipher : forall key iv ciphertext,
  f (CallCreateDecipheriv key iv ciphertext) = false.
Hypothesis f_parse : forall text, f (CallJSONparse text) = false.

Lemma count_decryptKeyData (keypair : KeyPair) (data : Buffer)
    (isOpdata01 : bool) :
  (countCalls f (fst (decryptKeyData keypair data isOpdata01)) <= nd)%nat.
Proof.
  destruct (decryptKeyData_trace keypair data isOpdata01)
    as (calls & -> & Hcalls).
  assert (Hq : filter f calls = []).
  { apply filter_none. intros ev Hin.
    destruct (Hcalls ev Hin) as [-> | ->]; [apply f_hmac | apply f_decipher]. }
  unfold countCalls. cbn [filter].
  pose proof (f_decrypt keypair data isOpdata01) as Hd.
  destruct (f (CallDecryptKeyData keypair data isOpdata01));
    cbn [List.length]; rewrite Hq; cbn [List.length]; lia.
Qed.

Lemma count_promisified (call : M CallbackArgs) (n : nat) :
  (countCalls f (fst call) <= n)%nat ->
  (countCalls f (fst (promisified call)) <= n)%nat.
Proof.
  intros H. unfold promisified.
  replace n with (n + 0)%nat by lia. apply countCalls_bind; [exact H|].
  intros [e | plaintext] _; cbn; lia.
Qed.

Lemma count_createKeyPair (data : Buffer) (digest : bool) :
  (countCalls f (fst (createKeyPair data digest))
   <= if digest then nh else 0)%nat.
Proof.
  destruct digest.
  - unfold createKeyPair. rewrite bind_emit.
    unfold countCalls, bind. cbn [fst snd ret app filter].
    pose proof (f_hash data).
    destruct (f (CallCreateHash data)); cbn [List.length] in *; lia.
  - rewrite createKeyPair_plain. cbn. lia.
Qed.

Lemma count_parseJSON (text : Buffer) :
  countCalls f (fst (parseJSON text)) = 0%nat.
Proof.
  unfold parseJSON. rewrite bind_emit. unfold countCalls. cbn [fst filter].
  rewrite f_parse. destruct (JSON_parse text); reflexivity.
Qed.

Lemma count_itemKeys (masterDataKeyPair overviewDataKeyPair : KeyPair)
    (item : ItemRow) :
  (countCalls f
     (fst (itemKeys masterDataKeyPair overviewDataKeyPair item))
   <= 2 * nd)%nat.
Proof.
  unfold itemKeys.
  apply (Nat.le_trans _ (nd + nd)); [|lia].
  apply countCalls_bind; [apply count_decryptKeyData|].
  intros [e | overviewRaw] _; [cbn; lia|].
  apply (Nat.le_trans _ (nd + 0)); [|lia].
  apply countCalls_bind; [apply count_decryptKeyData|].
  intros [e | keyRaw] _; [cbn; lia|].
  apply (countCalls_bind f _ _ 0 0).
  - destruct (JS.length keyRaw =? 0); [cbn; lia|].
    apply (count_createKeyPair keyRaw false).
  - intros itemDataKeyPair _. apply (countCalls_bind f _ _ 0 0).
    + rewrite count_parseJSON. lia.
    + intros parsed _. cbn. lia.
Qed.

Lemma count_buildKeys (masterDataKeyPair overviewDataKeyPair : KeyPair)
    (items : list ItemRow) :
  (countCalls f
     (fst (buildKeys masterDataKeyPair overviewDataKeyPair items))
   <= 2 * nd * List.length items)%nat.
Proof.
  induction items as [| item items IH]; [cbn; lia|].
  cbn [buildKeys List.length].
  apply (Nat.le_trans _ (2 * nd + 2 * nd * List.length items)); [|lia].
  apply countCalls_bind; [apply count_itemKeys|].
  intros pushed _.
  replace (2 * nd * List.length items)%nat
    with (2 * nd * List.length items + 0)%nat by lia.
  apply countCalls_bind; [exact IH|].
  intros later _. cbn. lia.
Qed.

Lemma count_detailExecutor (key : Key) (row : DetailRow) :
  (countCalls f (fst (detailExecutor key row)) <= nd)%nat.
Proof.
  unfold detailExecutor.
  replace nd with (nd + 0)%nat by lia.
  apply countCalls_bind; [apply count_decryptKeyData|].
  intros [e | plaintext] _; [cbn; lia|].
  apply (countCalls_bind f _ _ 0 0).
  - rewrite count_parseJSON. lia.
  - intros parsed _. cbn. lia.
Qed.

Lemma count_resolveDetail (keys : list Key) (row : DetailRow) :
  (countCalls f (fst (resolveDetail keys row))
   <= match findKey keys (detail_item_id row) with
      | Some _ => nd
      | None => 0
      end)%nat.
Proof.
  unfold resolveDetail.
  destruct (findKey keys (detail_item_id row)) as [key |]; [|cbn; lia].
  replace nd with (nd + 0)%nat by lia.
  apply countCalls_bind.
  - unfold newPromise. cbn [fst]. apply count_detailExecutor.
  - intros promise _. cbn. lia.
Qed.

Lemma count_resolveDetails (keys : list Key) (rows : list DetailRow) :
  (countCalls f (fst (resolveDetails keys rows))
   <= nd * List.length
             (filter (fun row => match findKey keys (detail_item_id row) with
                                 | Some _ => true
                                 | None => false
                                 end) rows))%nat.
Proof.
  induction rows as [| row rows IH]; [cbn; lia|].
  cbn [resolveDetails filter].
  pose proof (count_resolveDetail keys row) as Hrow.
  set (matched := filter _ rows) in *.
  apply (Nat.le_trans _
           (match findKey keys (detail_item_id row) with
            | Some _ => nd
            | None => 0
            end + nd * List.length matched)).
  - apply countCalls_bind; [exact Hrow|].
    intros promise _.
    replace (nd * List.length matched)%nat
      with (nd * List.length matched + 0)%nat by lia.
    apply countCalls_bind; [exact IH|].
    intros later _. cbn. lia.
  - destruct (findKey keys (detail_item_id row)); cbn [List.length]; lia.
Qed.

Lemma count_deriveMasterPasswordKeyPair (masterPassword : Buffer)
    (profileData : option ProfileRow) :
  (countCalls f
     (fst (deriveMasterPasswordKeyPair masterPassword profileData))
   <= np)%nat.
Proof.
  unfold deriveMasterPasswordKeyPair.
  apply (countCalls_bind f _ _ 0 np).
  - destruct profileData; cbn; lia.
  - intros profile _. rewrite bind_emit. unfold countCalls.
    cbn [fst filter].
    pose proof (f_pbkdf2 masterPassword (salt profile) (iterations profile))
      as Hp.
    assert (Hrest : filter f
                      (fst (key <- lift CryptoError
                                     (pbkdf2_sha512 masterPassword
                                        (salt profile) (iterations profile)
                                        64) ;;
                            ret (profile,
                                 (JS.slice key 0 32, JS.sliceFrom key 32))))
                    = []).
    { destruct (pbkdf2_sha512 masterPassword (salt profile)
                  (iterations profile) 64); reflexivity. }
    destruct (f (CallPbkdf2 masterPassword (salt profile)
                   (iterations profile)));
      cbn [List.length]; rewrite Hrest; cbn [List.length]; lia.
Qed.

Lemma count_unlockKeys (masterPasswordKeyPair : KeyPair)
    (profileData : ProfileRow) :
  (countCalls f (fst (unlockKeys masterPasswordKeyPair profileData))
   <= 2 * nd + 2 * nh)%nat.
Proof.
  unfold unlockKeys.
  apply (Nat.le_trans _ (nd + (nh + (nd + (nh + 0))))); [|lia].
  apply countCalls_bind;
    [apply count_promisified, count_decryptKeyData|].
  intros masterDataKeyData _.
  apply countCalls_bind; [apply (count_createKeyPair _ true)|].
  intros masterDataKeyPair _.
  apply countCalls_bind;
    [apply count_promisified, count_decryptKeyData|].
  intros overviewDataKeyData _.
  apply countCalls_bind; [apply (count_createKeyPair _ true)|].
  intros overviewDataKeyPair _. cbn. lia.
Qed.

Lemma count_unlockHierarchy (masterPassword : Buffer)
    (profileData : option ProfileRow) :
  (countCalls f (fst (unlockHierarchy masterPassword profileData))
   <= np + 2 * nd + 2 * nh)%nat.
Proof.
  unfold unlockHierarchy.
  apply (Nat.le_trans _ (np + ((2 * nd + 2 * nh) + 0))); [|lia].
  apply countCalls_bind; [apply count_deriveMasterPasswordKeyPair|].
  intros derived _.
  apply countCalls_bind; [apply count_unlockKeys|].
  intros pairs _. cbn. lia.
Qed.

End Counting.

Lemma Vault_new_trace {P : Platform} (db : Database)
    (masterPassword : Buffer) (profileName : option string) :
  fst (Vault_new db masterPassword profileName)
  = fst (unlockIndex db masterPassword profileName)
      ++ match snd (unlockIndex db masterPassword profileName) with
         | Normal (keys, itemDetails) =>
             fst (resolveDetails keys itemDetails)
         | Throw _ => []
         end.
Proof.
  unfold Vault_new. cbv zeta.
  destruct (snd (unlockIndex db masterPassword profileName))
    as [[keys itemDetails] | e]; cbn [fst].
  - destruct (snd (resolveDetails keys itemDetails)); reflexivity.
  - rewrite app_nil_r. reflexivity.
Qed.

Section Quiet.
Context {P : Platform}.
Variable f : Event -> bool.
Variables nh np : nat.
Hypothesis f_decrypt : forall keypair data isOpdata01,
  f (CallDecryptKeyData keypair data isOpdata01) = false.
Hypothesis f_hash : forall data,
  ((if f (CallCreateHash data) then 1 else 0) <= nh)%nat.
Hypothesis f_pbkdf2 : forall password salt iterations,
  ((if f (CallPbkdf2 password salt iterations) then 1 else 0) <= np)%nat.
Hypothesis f_hmac : forall key signed, f (CallCreateHmac key signed) = false.
Hypothesis f_decipher : forall key iv ciphertext,
  f (CallCreateDecipheriv key iv ciphertext) = false.
Hypothesis f_parse : forall text, f (CallJSONparse text) = false.

Lemma f_decrypt_0 : forall keypair data isOpdata01,
  ((if f (CallDecryptKeyData keypair data isOpdata01) then 1 else 0)
   <= 0)%nat.
Proof. intros. rewrite f_decrypt. lia. Qed.

Lemma count_unlockIndex (db : Database) (masterPassword : Buffer)
    (profileName : option string) :
  (countCalls f (fst (unlockIndex db masterPassword profileName))
   <= np + 2 * nh)%nat.
Proof.
  unfold unlockIndex.
  apply (Nat.le_trans _ (0 + ((np + 2 * nh) + (0 + (0 + (0 + 0))))));
    [|lia].
  apply countCalls_bind.
  { unfold readProfile.
    destruct (db_get_profile db _); cbn; lia. }
  intros profileData _. apply countCalls_bind.
  { pose proof (count_unlockHierarchy f 0 nh np f_decrypt_0 f_hash f_pbkdf2
                  f_hmac f_decipher masterPassword profileData).
    lia. }
  intros unlocked _. apply countCalls_bind.
  { destruct (db_all_items db _); cbn; lia. }
  intros items _. apply countCalls_bind.
  { pose proof (count_buildKeys f 0 nh f_decrypt_0 f_hash f_hmac f_decipher
                  f_parse (fst (snd unlocked)) (snd (snd unlocked)) items).
    lia. }
  intros keys _. apply countCalls_bind.
  { destruct (db_all_item_details db); cbn; lia. }
  intros itemDetails _. cbn. lia.
Qed.

Lemma count_Vault_new (db : Database) (masterPassword : Buffer)
    (profileName : option string) :
  (countCalls f (fst (Vault_new db masterPassword profileName))
   <= np + 2 * nh)%nat.
Proof.
  rewrite Vault_new_trace, countCalls_app.
  pose proof (count_unlockIndex db masterPassword profileName).
  destruct (snd (unlockIndex db masterPassword profileName))
    as [[keys itemDetails] | e].
  - pose proof (count_resolveDetails f 0 f_decrypt_0 f_hmac f_decipher
                  f_parse keys itemDetails).
    lia.
  - cbn. lia.
Qed.

End Quiet.

(** X21: whatever the database holds and however the run ends, one
    construction of a vault calls PBKDF2 at most once and [createHash] at
    most twice: no item and no detail is ever hashed or derived. *)
Theorem expensive_calls_bounded {P : Platform} (db : Database)
    (masterPassword : Buffer) (profileName : option string) :
  (countCalls isPbkdf2 (fst (Vault_new db masterPassword profileName))
   <= 1)%nat
  /\ (countCalls isCreateHash (fst (Vault_new db masterPassword profileName))
      <= 2)%nat.
Proof.
  split.
  - apply (count_Vault_new isPbkdf2 0 1); intros; cbn; lia || reflexivity.
  - apply (count_Vault_new isCreateHash 1 0); intros; cbn; lia || reflexivity.
Qed.

Lemma resolveDetails_trace {P : Platform} (keys : list Key)
    (rows : list DetailRow) :
  fst (resolveDetails keys rows)
  = flat_map (fun row => fst (resolveDetail keys row)) rows.
Proof.
  induction rows as [| row rows IH]; [reflexivity|].
  cbn [resolveDetails flat_map].
  rewrite (bind_Normal _ _ _ (resolveDetail_settled keys row)). cbn [fst].
  rewrite (bind_Normal _ _ _ (resolveDetails_settled keys rows)).
  cbn [fst ret]. rewrite app_nil_r, IH. reflexivity.
Qed.

Lemma detailExecutor_opens_once {P : Platform} (key : Key)
    (row : DetailRow) :
  countCalls isDecryptKeyData (fst (detailExecutor key row)) = 1%nat.
Proof.
  pose proof (decryptKeyData_counts_once (itemDataKeyPair key)
                (detail_data row) true) as Honce.
  unfold detailExecutor, bind.
  destruct (snd (decryptKeyData (itemDataKeyPair key) (detail_data row)
                   true)) as [[e | plaintext] | e]; cbn [fst snd].
  - rewrite countCalls_app. unfold countCalls at 1. rewrite Honce.
    reflexivity.
  - rewrite countCalls_app. unfold countCalls at 1. rewrite Honce.
    unfold parseJSON, bind. cbn [fst snd emit].
    destruct (JSON_parse plaintext); reflexivity.
  - exact Honce.
Qed.

(** X22: [decryptKeyData] is called at most twice to unlock the key
    hierarchy, at most twice per item, and exactly once per detail record
    whose item id has an entry; a detail record without entry is never
    opened. *)
Theorem decryptKeyData_calls_counted {P : Platform}
    (masterPassword : Buffer) (profileData : option ProfileRow)
    (masterDataKeyPair overviewDataKeyPair : KeyPair)
    (items : list ItemRow) (keys : list Key) (rows : list DetailRow) :
  (countCalls isDecryptKeyData
     (fst (unlockHierarchy masterPassword profileData)) <= 2)%nat
  /\ (countCalls isDecryptKeyData
        (fst (buildKeys masterDataKeyPair overviewDataKeyPair items))
      <= 2 * List.length items)%nat
  /\ countCalls isDecryptKeyData (fst (resolveDetails keys rows))
     = List.length
         (filter (fun row => match findKey keys (detail_item_id row) with
                             | Some _ => true
                             | None => false
                             end) rows).
Proof.
  split; [|split].
  - pose proof (count_unlockHierarchy isDecryptKeyData 1 0 0) as H.
    specialize (H ltac:(intros; cbn; lia) ltac:(intros; cbn; lia)
                  ltac:(intros; cbn; lia) ltac:(reflexivity)
                  ltac:(reflexivity) masterPassword profileData).
    lia.
  - pose proof (count_buildKeys isDecryptKeyData 1 0) as H.
    specialize (H ltac:(intros; cbn; lia) ltac:(intros; cbn; lia)
                  ltac:(reflexivity) ltac:(reflexivity) ltac:(reflexivity)
                  masterDataKeyPair overviewDataKeyPair items).
    lia.
  - rewrite resolveDetails_trace.
    induction rows as [| row rows IH]; [reflexivity|].
    cbn [flat_map filter]. rewrite countCalls_app, IH.
    unfold resolveDetail.
    destruct (findKey keys (detail_item_id row)) as [key |].
    + unfold newPromise, bind. cbn [fst snd ret List.length].
      rewrite app_nil_r, detailExecutor_opens_once. reflexivity.
    + reflexivity.
Qed.

(** ** When the unlock succeeds *)

Lemma Promise_all_fulfilled_iff (promises : list (Completion Detail)) :
  Promise_all promises = Normal tt
  <-> forall e, ~ In (Throw e) promises.
Proof.
  induction promises as [| [d | e'] promises IH]; cbn [Promise_all In].
  - split; [intros _ e [] | reflexivity].
  - rewrite IH. split.
    + intros H e [E | Hin]; [discriminate E | exact (H e Hin)].
    + intros H e Hin. apply (H e). right. exact Hin.
  - split; [discriminate|].
    intros H. exfalso. apply (H e'). left. reflexivity.
Qed.

(** X23: once the run has reached the detail records, the constructor's
    promise is fulfilled exactly when no executor of a detail record
    that has an entry throws; what the callbacks are handed does not
    matter. *)
Theorem unlock_fulfilled_iff_no_detail_throws {P : Platform}
    (db : Database) (masterPassword : Buffer) (profileName : option string)
    (keys : list Key) (itemDetails : list DetailRow) :
  snd (unlockIndex db masterPassword profileName)
  = Normal (keys, itemDetails) ->
  dbPromise (snd (Vault_new db masterPassword profileName)) = Fulfilled tt
  <-> forall row key e,
        In row itemDetails ->
        findKey keys (detail_item_id row) = Some key ->
        snd (detailExecutor key row) <> Throw e.
Proof.
  intros Hrun.
  rewrite (Vault_new_index db masterPassword profileName keys itemDetails
             Hrun).
  cbn [dbPromise].
  assert (Hsettle : settle (Promise_all
                              (flat_map (settledDetail keys) itemDetails))
                    = Fulfilled tt
                    <-> Promise_all
                          (flat_map (settledDetail keys) itemDetails)
                        = Normal tt).
  { destruct (Promise_all (flat_map (settledDetail keys) itemDetails))
      as [[] | e]; cbn [settle]; split; congruence. }
  rewrite Hsettle, Promise_all_fulfilled_iff. split.
  - intros H row key e Hrow Hkey Hthrow. apply (H e).
    apply in_flat_map. exists row. split; [exact Hrow|].
    unfold settledDetail. rewrite Hkey, Hthrow. left. reflexivity.
  - intros H e Hin. apply in_flat_map in Hin as (row & Hrow & Hin).
    unfold settledDetail in Hin.
    destruct (findKey keys (detail_item_id row)) as [key |] eqn:Hkey;
      [|contradiction].
    destruct Hin as [Hin | []]. exact (H row key e Hrow Hkey Hin).
Qed.

Lemma unlock_fulfilled_iff_no_detail_throws_witness :
  dbPromise
    (snd (Vault_new (P := Sample.platform)
            (Sample.database [Sample.githubItem; Sample.gitlabItem]
               [Sample.foreignDetail; Sample.orphanDetail])
            Sample.password None))
  = Fulfilled tt.
Proof.
  apply (unlock_fulfilled_iff_no_detail_throws (P := Sample.platform)
           (Sample.database [Sample.githubItem; Sample.gitlabItem]
              [Sample.foreignDetail; Sample.orphanDetail])
           Sample.password None [Sample.githubKey; Sample.gitlabKey]
           [Sample.foreignDetail; Sample.orphanDetail]).
  - vm_compute. reflexivity.
  - intros row key e [<- | [<- | []]] Hkey.
    + injection Hkey as <-. vm_compute. discriminate.
    + discriminate Hkey.
Defined.

(** X24: the two other ways the key hierarchy fails.  When PBKDF2
    reports an error the run is rejected after that one call.  When the
    master key data opens and the overview key data does not, by an error
    handed to the callback or by an exception, the run is rejected with
    that error after hashing the master key material only, and no key
    pair comes out. *)
Theorem hierarchy_failures_after_master {P : Platform}
    (masterPassword : Buffer) (profile : ProfileRow) :
  let derive :=
    CallPbkdf2 masterPassword (salt profile) (iterations profile) in
  let derived :=
    pbkdf2_sha512 masterPassword (salt profile) (iterations profile) 64 in
  (derived = None ->
   unlockHierarchy masterPassword (Some profile)
   = ([derive], Throw CryptoError))
  /\ (forall key masterRaw e,
        derived = Some key ->
        let topKeyPair := (JS.slice key 0 32, JS.sliceFrom key 32) in
        let openMaster :=
          decryptKeyData topKeyPair (master_key_data profile) true in
        let openOverview :=
          decryptKeyData topKeyPair (overview_key_data profile) true in
        snd openMaster = Normal (CbOk masterRaw) ->
        snd openOverview = Normal (CbErr e) \/ snd openOverview = Throw e ->
        unlockHierarchy masterPassword (Some profile)
        = (derive :: fst openMaster ++ CallCreateHash masterRaw
             :: fst openOverview,
           Throw e)).
Proof.
  intros derive derived. split.
  - intros Hnone. unfold unlockHierarchy, deriveMasterPasswordKeyPair.
    cbn [lift]. rewrite bind_ret, bind_emit. fold derived. rewrite Hnone.
    reflexivity.
  - intros key masterRaw e Hkey topKeyPair openMaster openOverview Hm Ho.
    unfold unlockHierarchy.
    rewrite (deriveMasterPasswordKeyPair_ok masterPassword profile key Hkey).
    unfold bind at 1. cbn [fst snd app]. unfold unlockKeys.
    fold topKeyPair. fold openMaster openOverview.
    assert (Em : promisified openMaster = (fst openMaster, Normal masterRaw)).
    { unfold promisified. rewrite (bind_Normal _ _ _ Hm). cbn.
      rewrite app_nil_r. reflexivity. }
    assert (Eo : promisified openOverview = (fst openOverview, Throw e)).
    { unfold promisified. destruct Ho as [Ho | Ho].
      - rewrite (bind_Normal _ _ _ Ho). cbn. rewrite app_nil_r. reflexivity.
      - rewrite (bind_Throw _ _ _ Ho). reflexivity. }
    unfold bind. rewrite Em. cbn [fst snd].
    assert (Ek : createKeyPair masterRaw true
                 = ([CallCreateHash masterRaw],
                    Normal (JS.slice (sha512 masterRaw) 0 32,
                            JS.sliceFrom (sha512 masterRaw) 32))).
    { unfold createKeyPair. rewrite bind_emit. reflexivity. }
    rewrite Ek. cbn [fst snd]. rewrite Eo. cbn [fst snd app].
    reflexivity.
Qed.

Lemma hierarchy_failures_after_master_witness :
  let profile := {| profile_id := 1;
                    iterations := 2;
                    master_key_data := master_key_data Sample.profile;
                    overview_key_data := Sample.bytes "opdata02";
                    salt := Sample.zeros 16 |} in
  snd (unlockHierarchy (P := Sample.platform) Sample.password (Some profile))
  = Throw RangeError.
Proof.
  intros profile.
  destruct (hierarchy_failures_after_master (P := Sample.platform)
              Sample.password profile) as [_ H].
  rewrite (H (Sample.digestOf 64 (Sample.sumBytes Sample.password + 2))
             Sample.masterRaw RangeError).
  - reflexivity.
  - reflexivity.
  - vm_compute. reflexivity.
  - right. vm_compute. reflexivity.
Defined.
